(** * spotify-mcp: tool handlers over the Spotify Web API

    A shallow embedding of the tool registry of the server
    ([player.ts], [read.ts], [write.ts], [index.ts]) and proofs of the
    properties its specification states.

    Every handler is an [async] function whose only effects are calls made
    through [handleSpotifyRequest].  A handler is embedded as a tree of
    requests ([Prog]): a node is one request, its children are indexed by
    the reply (a value or a thrown exception).  [exec] runs such a tree
    against an arbitrary environment and records the requests made. *)

From Stdlib Require Import ZArith QArith String Ascii.
From Stdlib Require Import DecimalString DecimalPos DecimalZ.
From stdpp Require Import base option list strings gmap.

Local Open Scope Z_scope.

(** ** JavaScript values and strings *)

(** Characters that a Rocq string literal cannot hold directly. *)
Definition nl : string := String (ascii_of_nat 10) EmptyString.
Definition dq : string := String (ascii_of_nat 34) EmptyString.

(** [String(n)] and [`${n}`] for an integral number: decimal digits, with a
    leading minus sign for negative numbers.  (JavaScript switches to
    exponent notation from 10^21 on; list indices, lengths and millisecond
    counts stay far below.) *)
Definition Number_toString (n : Z) : string :=
  NilZero.string_of_int (Z.to_int n).

(** [Array.prototype.join]. *)
Definition join (sep : string) (l : list string) : string :=
  String.concat sep l.

(** [s.padStart(n, c)] for a one-character pad string. *)
Definition padStart (n : nat) (c : ascii) (s : string) : string :=
  string_of_list_ascii (replicate (n - String.length s)%nat c) +:+ s.

(** Truthiness of an optional string: [undefined] and [''] are falsy. *)
Definition truthy (o : option string) : bool :=
  match o with
  | Some s => negb (String.eqb s "")
  | None => false
  end.

(** [o || d] for an optional string [o]. *)
Definition or_else (o : option string) (d : string) : string :=
  match o with
  | Some s => if String.eqb s "" then d else s
  | None => d
  end.

(** [`${o}`] for a possibly missing string. *)
Inductive nullable (A : Type) : Type :=
| Undefined
| Null
| Val (a : A).
Arguments Undefined {A}.
Arguments Null {A}.
Arguments Val {A} a.

Definition interpolate (o : nullable string) : string :=
  match o with
  | Undefined => "undefined"
  | Null => "null"
  | Val s => s
  end.

(** [o ?? d]. *)
Definition nullish {A} (o : nullable A) (d : A) : A :=
  match o with
  | Val a => a
  | _ => d
  end.

(** A value that crosses the transport as a tool argument.  Numbers are
    the finite ones JSON can carry, taken as rationals (every finite double
    is one, and the schemas only compare them with integer bounds). *)
#[warning="-register-all"]
Inductive JsVal : Type :=
| JUndefined
| JNull
| JBool (b : bool)
| JNum (q : Q)
| JStr (s : string)
| JArr (l : list JsVal).

(** What a [throw] carries: an [Error] object with its [message], or any
    other value, kept as the string [String(value)] turns it into. *)
Inductive JsThrown : Type :=
| ErrorObject (message : string)
| Thrown_value (as_string : string).

(** [error instanceof Error ? error.message : String(error)] *)
Definition error_message (e : JsThrown) : string :=
  match e with
  | ErrorObject m => m
  | Thrown_value s => s
  end.

(** ** utils.ts *)

(** Modelled from the spec: [formatDuration] of [utils.ts], which is not
    among the sources.  "Given a millisecond count, produce M:SS with
    zero-padded seconds"; the minutes are the whole minutes of the count
    and the seconds the whole seconds left over, so that the inverse gives
    the count rounded down to the second. *)
Definition formatDuration (ms : Z) : string :=
  let minutes := ms / 60000 in
  let seconds := (ms mod 60000) / 1000 in
  Number_toString minutes +:+ ":" +:+ padStart 2 "0"%char (Number_toString seconds).

(** The inverse the specification names: read [M:SS] back and compute
    [minutes*60000 + seconds*1000]. *)
Fixpoint split_colon (s : string) : option (string * string) :=
  match s with
  | EmptyString => None
  | String c r =>
      if Ascii.eqb c ":"%char then Some (EmptyString, r)
      else match split_colon r with
           | Some (a, b) => Some (String c a, b)
           | None => None
           end
  end.

Definition parseInt (s : string) : option Z :=
  option_map Z.of_int (NilZero.int_of_string s).

Definition parseDuration (s : string) : option (Z * Z) :=
  match split_colon s with
  | Some (m, r) =>
      match parseInt m, parseInt r with
      | Some minutes, Some seconds => Some (minutes, seconds)
      | _, _ => None
      end
  | None => None
  end.

Definition duration_ms_of (ms : Z * Z) : Z :=
  fst ms * 60000 + snd ms * 1000.

(** ** The Spotify Web API client

    The data the handlers read from the SDK's replies.  A field is optional
    where the code tests for its presence. *)

Record Artist : Type := { artist_name : string; artist_id : string }.

Record Track : Type := {
  track_name : string;
  track_artists : list Artist;
  track_duration_ms : Z;
  track_id : string }.

Record Album : Type := {
  album_name : string;
  album_artists : list Artist;
  album_id : string }.

Record Owner : Type := { display_name : nullable string }.

Record Playlist : Type := {
  playlist_name : nullable string;
  playlist_description : nullable string;
  playlist_owner : nullable Owner;
  playlist_id : nullable string }.

Record Page (A : Type) : Type := { items : list A }.
Arguments items {A} _.

Record SearchResults : Type := {
  tracks : option (Page Track);
  albums : option (Page Album);
  playlists : option (Page (nullable Playlist)) }.

(** An item of unknown kind ([any] for [isTrack]): a playback item or the
    [track] of a playlist or history entry. *)
Record AlbumRef : Type := { albumref_name : option string }.

Record Item : Type := {
  item_type : string;
  item_name : string;
  item_id : string;
  item_duration_ms : Z;
  item_artists : option (list Artist);   (* [None]: not an array *)
  item_album : option AlbumRef }.

Record PlaybackState : Type := {
  item : option Item;
  progress_ms : option Z;
  is_playing : bool }.

Record TracksRef : Type := { total : Z }.

Record SimplifiedPlaylist : Type := {
  sp_name : string;
  sp_id : string;
  sp_tracks : option TracksRef }.

Record PlaylistedTrack : Type := { track : option Item }.

Record PlaylistItems : Type := { playlist_items : option (list PlaylistedTrack) }.

Record FollowedArtists : Type := { artists : Page Artist }.

Record TopItem : Type := {
  top_name : string;
  top_id : string;
  top_artists : option (list Artist) }.   (* ['artists' in item] and an array *)

Record WithId : Type := { id_of : string }.

Record CreatePlaylistRequest : Type := {
  req_name : string;
  req_description : option string;
  req_public : bool }.

(** The SDK methods the handlers call, with the arguments they pass. *)
Inductive ApiCall : Type :=
| search (q : string) (types : list string) (market : option string)
         (limit offset : Q)
| player_getCurrentlyPlayingTrack
| currentUser_playlists_playlists (limit : Q)
| playlists_getPlaylistItems (playlist_id : string)
    (market fields : option string) (limit : Q)
| player_getRecentlyPlayedTracks (limit : Q)
| currentUser_followedArtists (after : option string) (limit : Q)
| currentUser_topItems (type time_range : string) (limit : Q)
| player_startResumePlayback (device_id : string)
    (context_uri : option string) (uris : option (list string))
| player_pausePlayback (device_id : string)
| player_skipToNext (device_id : string)
| player_skipToPrevious (device_id : string)
| currentUser_profile
| playlists_createPlaylist (user_id : string) (request : CreatePlaylistRequest)
| playlists_addItemsToPlaylist (playlist_id : string) (uris : list string)
    (position : option Q)
| player_addItemToPlaybackQueue (uri : string) (device_id : string)
| playlists_removeItemsFromPlaylist (playlist_id : string)
    (tracks : list string).   (* the [uri] of each [{uri}] *)

Definition ApiReply (c : ApiCall) : Type :=
  match c with
  | search _ _ _ _ _ => SearchResults
  | player_getCurrentlyPlayingTrack => option PlaybackState
  | currentUser_playlists_playlists _ => Page SimplifiedPlaylist
  | playlists_getPlaylistItems _ _ _ _ => PlaylistItems
  | player_getRecentlyPlayedTracks _ => Page PlaylistedTrack
  | currentUser_followedArtists _ _ => FollowedArtists
  | currentUser_topItems _ _ _ => Page TopItem
  | currentUser_profile => WithId
  | playlists_createPlaylist _ _ => WithId
  | _ => unit
  end.

(** ** Requests, programs and their execution *)

(** What a handler asks of its environment: the dispatcher's credential
    step, or one SDK method. *)
Inductive Request : Type :=
| Credential
| Api (c : ApiCall).

Definition Reply (r : Request) : Type :=
  match r with
  | Credential => unit
  | Api c => ApiReply c
  end.

(** The result of an awaited request: a value, or a thrown exception. *)
Inductive Settled (A : Type) : Type :=
| Fulfilled (a : A)
| Rejected (e : JsThrown).
Arguments Fulfilled {A} a.
Arguments Rejected {A} e.

Inductive Prog (A : Type) : Type :=
| Ret (a : A)
| Throw (e : JsThrown)
| Vis (r : Request) (k : Settled (Reply r) -> Prog A).
Arguments Ret {A} a.
Arguments Throw {A} e.
Arguments Vis {A} r k.

Fixpoint bind {A B} (p : Prog A) (f : A -> Prog B) : Prog B :=
  match p with
  | Ret a => f a
  | Throw e => Throw e
  | Vis r k => Vis r (fun x => bind (k x) f)
  end.

(** [try { p } catch (error) { h error }] *)
Fixpoint try_catch {A} (p : Prog A) (h : JsThrown -> Prog A) : Prog A :=
  match p with
  | Ret a => Ret a
  | Throw e => h e
  | Vis r k => Vis r (fun x => try_catch (k x) h)
  end.

#[export] Instance Prog_ret : MRet Prog := @Ret.
#[export] Instance Prog_bind : MBind Prog := fun A B f p => bind p f.

(** [await r]: a rejected request throws. *)
Definition await (r : Request) : Prog (Reply r) :=
  Vis r (fun x => match x with
                  | Fulfilled a => Ret a
                  | Rejected e => Throw e
                  end).

Definition call (c : ApiCall) : Prog (ApiReply c) := await (Api c).

(** An environment answers the [n]-th request of an invocation. *)
Definition World : Type := nat -> forall r : Request, Settled (Reply r).

(** What an invocation amounts to: the requests made, in order; the first
    exception the environment raised in answer to one of them, if any; and
    how the program ended. *)
Record Run (A : Type) : Type := {
  requests : list Request;
  rejection : option JsThrown;
  outcome : Settled A }.
Arguments requests {A} _.
Arguments rejection {A} _.
Arguments outcome {A} _.

Fixpoint exec_from {A} (w : World) (n : nat) (p : Prog A) : Run A :=
  match p with
  | Ret a => {| requests := []; rejection := None; outcome := Fulfilled a |}
  | Throw e => {| requests := []; rejection := None; outcome := Rejected e |}
  | Vis r k =>
      let rest := exec_from w (S n) (k (w n r)) in
      {| requests := r :: requests rest;
         rejection := match w n r with
                      | Rejected e => Some e
                      | Fulfilled _ => rejection rest
                      end;
         outcome := outcome rest |}
  end.

Definition exec {A} (w : World) (p : Prog A) : Run A := exec_from w 0 p.

(** Modelled from the spec: [handleSpotifyRequest] of [utils.ts], which is
    not among the sources.  The dispatcher "ensures the client holds a
    valid, non-expired credential", then "invokes the operation exactly
    once, and returns its result or propagates failure"; a failed
    credential refresh fails the dispatch before the operation runs. *)
Definition handleSpotifyRequest {A} (action : Prog A) : Prog A :=
  _ ← await Credential; action.

(** ** Result envelopes (types.ts) *)

Record ContentBlock : Type := {
  block_type : string;
  block_text : string;
  block_isError : option bool }.

Definition Envelope : Type := list ContentBlock.

(** [{ content: [{ type: 'text', text }] }] *)
Definition text_content (text : string) : Envelope :=
  [ {| block_type := "text"; block_text := text; block_isError := None |} ].

(** [{ content: [{ type: 'text', text, isError: true }] }] *)
Definition error_content (text : string) : Envelope :=
  [ {| block_type := "text"; block_text := text; block_isError := Some true |} ].

(** ** Schemas (zod) *)

Definition ZodType (A : Type) : Type := JsVal -> option A.

Definition z_string : ZodType string :=
  fun v => match v with JStr s => Some s | _ => None end.

Definition z_number : ZodType Q :=
  fun v => match v with JNum q => Some q | _ => None end.

Definition z_boolean : ZodType bool :=
  fun v => match v with JBool b => Some b | _ => None end.

Definition z_min (m : Q) (z : ZodType Q) : ZodType Q :=
  fun v => q ← z v; if Qle_bool m q then Some q else None.

Definition z_max (m : Q) (z : ZodType Q) : ZodType Q :=
  fun v => q ← z v; if Qle_bool q m then Some q else None.

Definition z_nonnegative (z : ZodType Q) : ZodType Q := z_min 0%Q z.

Definition z_enum (values : list string) : ZodType string :=
  fun v => s ← z_string v; if bool_decide (s ∈ values) then Some s else None.

Definition z_array {A} (z : ZodType A) : ZodType (list A) :=
  fun v => match v with JArr l => mapM z l | _ => None end.

Definition z_optional {A} (z : ZodType A) : ZodType (option A) :=
  fun v => match v with JUndefined => Some None | _ => Some <$> z v end.

(** The argument object of a call; a key that is absent reads as
    [undefined]. *)
Abbreviation RawArgs := (gmap string JsVal).

Definition field (raw : RawArgs) (key : string) : JsVal :=
  default JUndefined (raw !! key).

(** types.ts: a tool is a name, a description, a schema and a handler.  The
    schema is the typed parse of the argument object: [None] is a
    validation failure. *)
Record tool : Type := {
  name : string;
  description : string;
  Args : Type;
  schema : RawArgs -> option Args;
  handler : Args -> Prog Envelope }.

(** ** read.ts *)

(** The narrowed view [isTrack] grants ([item is SpotifyTrack]). *)
Record SpotifyTrack : Type := {
  st_name : string;
  st_id : string;
  st_duration_ms : Z;
  st_artists : list Artist;
  st_album_name : string }.

(** [isTrack]: the type is ['track'], [artists] is an array, [album] is
    present and its [name] is a string.  The guard is applied to items
    already known to be non-null; [Some] is [true] together with the
    narrowed item. *)
Definition isTrack (i : Item) : option SpotifyTrack :=
  if String.eqb (item_type i) "track" then
    match item_artists i, item_album i with
    | Some ars, Some al =>
        match albumref_name al with
        | Some n => Some {| st_name := item_name i; st_id := item_id i;
                            st_duration_ms := item_duration_ms i;
                            st_artists := ars; st_album_name := n |}
        | None => None
        end
    | _, _ => None
    end
  else None.

(** [artists.map((a) => a.name).join(', ')] *)
Definition artist_names (l : list Artist) : string :=
  join ", " (artist_name <$> l).

(** [`${i + 1}`] for the index [i] of [Array.prototype.map]. *)
Definition ordinal (i : nat) : string := Number_toString (Z.of_nat i + 1).

Module SearchSpotify.
Record args : Type := {
  query : string;
  type : string;
  limit : option Q;
  offset : option Q }.

Definition schema (raw : RawArgs) : option args :=
  query ← z_string (field raw "query");
  type ← z_enum ["track"; "album"; "playlist"] (field raw "type");
  limit ← z_optional (z_max 50 (z_min 1 z_number)) (field raw "limit");
  offset ← z_optional (z_max 1000 (z_min 0 z_number)) (field raw "offset");
  Some {| query := query; type := type; limit := limit; offset := offset |}.

Definition track_line (i : nat) (t : Track) : string :=
  ordinal i +:+ ". " +:+ dq +:+ track_name t +:+ dq +:+ " by "
    +:+ artist_names (track_artists t)
    +:+ " (" +:+ formatDuration (track_duration_ms t) +:+ ") - ID: "
    +:+ track_id t.

Definition album_line (i : nat) (al : Album) : string :=
  ordinal i +:+ ". " +:+ dq +:+ album_name al +:+ dq +:+ " by "
    +:+ artist_names (album_artists al) +:+ " - ID: " +:+ album_id al.

(** [playlist?.f]: [undefined] when the playlist itself is missing. *)
Definition opt_chain {A B} (o : nullable A) (f : A -> nullable B) : nullable B :=
  match o with
  | Val a => f a
  | _ => Undefined
  end.

Definition playlist_line (i : nat) (pl : nullable Playlist) : string :=
  ordinal i +:+ ". " +:+ dq
    +:+ nullish (opt_chain pl playlist_name) "Unknown Playlist"
    +:+ " ("
    +:+ nullish (opt_chain pl playlist_description) "No description"
    +:+ " tracks)" +:+ dq +:+ " by "
    +:+ interpolate (opt_chain (opt_chain pl playlist_owner) display_name)
    +:+ " - ID: " +:+ interpolate (opt_chain pl playlist_id).

Definition format (type : string) (results : SearchResults) : string :=
  match (if String.eqb type "track" then tracks results else None) with
  | Some page => join nl (imap track_line (items page))
  | None =>
      match (if String.eqb type "album" then albums results else None) with
      | Some page => join nl (imap album_line (items page))
      | None =>
          match (if String.eqb type "playlist" then playlists results
                 else None) with
          | Some page => join nl (imap playlist_line (items page))
          | None => ""
          end
      end
  end.

Definition handler (a : args) : Prog Envelope :=
  let limitValue := default 20%Q (limit a) in
  let offsetValue := default 0%Q (offset a) in
  try_catch
    (results ← handleSpotifyRequest
       (call (search (query a) [type a] None limitValue offsetValue));
     let formattedResults := format (type a) results in
     mret (text_content
       (if (0 <? String.length formattedResults)%nat
        then "# Search results for " +:+ dq +:+ query a +:+ dq
               +:+ " (type: " +:+ type a +:+ ")" +:+ nl +:+ nl
               +:+ formattedResults
        else "No " +:+ type a +:+ " results found for "
               +:+ dq +:+ query a +:+ dq)))
    (fun error =>
       mret (text_content
         ("Error searching for " +:+ type a +:+ "s: "
            +:+ error_message error))).
End SearchSpotify.

Definition searchSpotify : tool := {|
  name := "searchSpotify";
  description := "Search Spotify by keyword and field filters (e.g. artist, track, playlist, tag:new, tag:hipster) and return items of the given type";
  schema := SearchSpotify.schema;
  handler := SearchSpotify.handler |}.

Module GetNowPlaying.
Definition args : Type := unit.

Definition schema (raw : RawArgs) : option args := Some tt.

Definition handler (a : args) : Prog Envelope :=
  try_catch
    (currentTrack ← handleSpotifyRequest
       (call player_getCurrentlyPlayingTrack);
     let nothing :=
       mret (text_content "Nothing is currently playing on Spotify") in
     match currentTrack with
     | None => nothing
     | Some ct =>
         match item ct with
         | None => nothing
         | Some it =>
             match isTrack it with
             | None =>
                 mret (text_content
                   "Currently playing item is not a track (might be a podcast episode)")
             | Some t =>
                 let artists := artist_names (st_artists t) in
                 let album := st_album_name t in
                 let duration := formatDuration (st_duration_ms t) in
                 let progress :=
                   formatDuration (default 0 (progress_ms ct)) in
                 let isPlaying := is_playing ct in
                 mret (text_content
                   ("# Currently "
                      +:+ (if isPlaying then "Playing" else "Paused")
                      +:+ nl +:+ nl
                      +:+ "**Track**: " +:+ dq +:+ st_name t +:+ dq +:+ nl
                      +:+ "**Artist**: " +:+ artists +:+ nl
                      +:+ "**Album**: " +:+ album +:+ nl
                      +:+ "**Progress**: " +:+ progress +:+ " / "
                      +:+ duration +:+ nl
                      +:+ "**ID**: " +:+ st_id t))
             end
         end
     end)
    (fun error =>
       mret (text_content
         ("Error getting current track: " +:+ error_message error))).
End GetNowPlaying.

Definition getNowPlaying : tool := {|
  name := "getNowPlaying";
  description := "Get information about the currently playing track on Spotify";
  schema := GetNowPlaying.schema;
  handler := GetNowPlaying.handler |}.

(** The [limit] rule the list reads share: a number from 1 to 50, or absent. *)
Definition z_limit : ZodType (option Q) :=
  z_optional (z_max 50 (z_min 1 z_number)).

(** The line of a playlist or history entry. *)
Definition entry_line (i : nat) (e : PlaylistedTrack) : string :=
  match track e with
  | None => ordinal i +:+ ". [Removed track]"
  | Some it =>
      match isTrack it with
      | Some t =>
          ordinal i +:+ ". " +:+ dq +:+ st_name t +:+ dq +:+ " by "
            +:+ artist_names (st_artists t)
            +:+ " (" +:+ formatDuration (st_duration_ms t) +:+ ") - ID: "
            +:+ st_id t
      | None => ordinal i +:+ ". Unknown item"
      end
  end.

Module GetUserPlaylists.
Record args : Type := { limit : option Q }.

Definition schema (raw : RawArgs) : option args :=
  limit ← z_limit (field raw "limit");
  Some {| limit := limit |}.

Definition playlist_line (i : nat) (pl : SimplifiedPlaylist) : string :=
  let tracksTotal := from_option total 0 (sp_tracks pl) in
  ordinal i +:+ ". " +:+ dq +:+ sp_name pl +:+ dq +:+ " ("
    +:+ Number_toString tracksTotal +:+ " tracks) - ID: " +:+ sp_id pl.

Definition handler (a : args) : Prog Envelope :=
  let limit := default 50%Q (limit a) in
  playlists ← handleSpotifyRequest
    (call (currentUser_playlists_playlists limit));
  if (length (items playlists) =? 0)%nat
  then mret (text_content "You don't have any playlists on Spotify")
  else
    let formattedPlaylists := join nl (imap playlist_line (items playlists)) in
    mret (text_content
      ("# Your Spotify Playlists" +:+ nl +:+ nl +:+ formattedPlaylists)).
End GetUserPlaylists.

Definition getUserPlaylists : tool := {|
  name := "getUserPlaylists";
  description := "Get a list of the current user's playlists on Spotify";
  schema := GetUserPlaylists.schema;
  handler := GetUserPlaylists.handler |}.

Module GetPlaylistTracks.
Record args : Type := { playlistId : string; limit : option Q }.

Definition schema (raw : RawArgs) : option args :=
  playlistId ← z_string (field raw "playlistId");
  limit ← z_limit (field raw "limit");
  Some {| playlistId := playlistId; limit := limit |}.

Definition handler (a : args) : Prog Envelope :=
  let limit := default 50%Q (limit a) in
  playlistTracks ← handleSpotifyRequest
    (call (playlists_getPlaylistItems (playlistId a) None None limit));
  if (from_option length 0%nat (playlist_items playlistTracks) =? 0)%nat
  then mret (text_content "This playlist doesn't have any tracks")
  else
    let formattedTracks :=
      join nl (imap entry_line (default [] (playlist_items playlistTracks))) in
    mret (text_content
      ("# Tracks in Playlist" +:+ nl +:+ nl +:+ formattedTracks)).
End GetPlaylistTracks.

Definition getPlaylistTracks : tool := {|
  name := "getPlaylistTracks";
  description := "Get a list of tracks in a Spotify playlist";
  schema := GetPlaylistTracks.schema;
  handler := GetPlaylistTracks.handler |}.

Module GetRecentlyPlayed.
Record args : Type := { limit : option Q }.

Definition schema (raw : RawArgs) : option args :=
  limit ← z_limit (field raw "limit");
  Some {| limit := limit |}.

Definition handler (a : args) : Prog Envelope :=
  let limit := default 50%Q (limit a) in
  history ← handleSpotifyRequest
    (call (player_getRecentlyPlayedTracks limit));
  if (length (items history) =? 0)%nat
  then mret (text_content
         "You don't have any recently played tracks on Spotify")
  else
    let formattedHistory := join nl (imap entry_line (items history)) in
    mret (text_content
      ("# Recently Played Tracks" +:+ nl +:+ nl +:+ formattedHistory)).
End GetRecentlyPlayed.

Definition getRecentlyPlayed : tool := {|
  name := "getRecentlyPlayed";
  description := "Get a list of recently played tracks on Spotify";
  schema := GetRecentlyPlayed.schema;
  handler := GetRecentlyPlayed.handler |}.

Module GetFollowedArtists.
Record args : Type := { after : option string; limit : option Q }.

Definition schema (raw : RawArgs) : option args :=
  after ← z_optional z_string (field raw "after");
  limit ← z_limit (field raw "limit");
  Some {| after := after; limit := limit |}.

Definition artist_line (i : nat) (ar : Artist) : string :=
  ordinal i +:+ ". " +:+ dq +:+ artist_name ar +:+ dq +:+ " - ID: "
    +:+ artist_id ar.

Definition handler (a : args) : Prog Envelope :=
  let limit := default 50%Q (limit a) in
  followed ← handleSpotifyRequest
    (call (currentUser_followedArtists (after a) limit));
  if (length (items (artists followed)) =? 0)%nat
  then mret (text_content "User doesn't follow any artists on Spotify")
  else
    let formattedArtists :=
      join nl (imap artist_line (items (artists followed))) in
    mret (text_content
      ("# Artists You Follow" +:+ nl +:+ nl +:+ formattedArtists)).
End GetFollowedArtists.

Definition getFollowedArtists : tool := {|
  name := "getFollowedArtists";
  description := "Get a list of artists the user is following on Spotify";
  schema := GetFollowedArtists.schema;
  handler := GetFollowedArtists.handler |}.

Module GetUserTopItems.
Record args : Type := {
  type : string;
  time_range : string;
  limit : option Q;
  offset : option Q }.

Definition schema (raw : RawArgs) : option args :=
  type ← z_string (field raw "type");
  time_range ← z_string (field raw "time_range");
  limit ← z_limit (field raw "limit");
  offset ← z_optional z_number (field raw "offset");
  Some {| type := type; time_range := time_range;
          limit := limit; offset := offset |}.

Definition item_line (type : string) (i : nat) (it : TopItem) : string :=
  if String.eqb type "artists" then
    ordinal i +:+ ". " +:+ dq +:+ top_name it +:+ dq +:+ " - ID: "
      +:+ top_id it
  else
    match (if String.eqb type "tracks" then top_artists it else None) with
    | Some ars =>
        ordinal i +:+ ". " +:+ dq +:+ top_name it +:+ dq +:+ " by "
          +:+ artist_names ars +:+ " - ID: " +:+ top_id it
    | None =>
        ordinal i +:+ ". " +:+ dq +:+ top_name it +:+ dq +:+ " - ID: "
          +:+ top_id it
    end.

Definition handler (a : args) : Prog Envelope :=
  let limit := default 50%Q (limit a) in
  topItems ← handleSpotifyRequest
    (call (currentUser_topItems (type a) (time_range a) limit));
  if (length (items topItems) =? 0)%nat
  then mret (text_content
         ("User doesn't have any top " +:+ type a +:+ " on Spotify"))
  else
    let formattedItems :=
      join nl (imap (item_line (type a)) (items topItems)) in
    mret (text_content
      ("# Top " +:+ type a +:+ nl +:+ nl +:+ formattedItems)).
End GetUserTopItems.

Definition getUserTopItems : tool := {|
  name := "getUserTopItems";
  description := "Get a list of the user's top artists or tracks";
  schema := GetUserTopItems.schema;
  handler := GetUserTopItems.handler |}.

Definition readTools : list tool := [
  searchSpotify;
  getNowPlaying;
  getUserPlaylists;
  getPlaylistTracks;
  getRecentlyPlayed;
  getFollowedArtists;
  getUserTopItems ].

(** ** player.ts *)

(** The item kinds [playMusic] and [addToQueue] accept. *)
Definition item_kinds : list string := ["track"; "album"; "artist"; "playlist"].

Module PlayMusic.
Record args : Type := {
  uri : option string;
  type : option string;
  id : option string;
  deviceId : option string }.

Definition schema (raw : RawArgs) : option args :=
  uri ← z_optional z_string (field raw "uri");
  type ← z_optional (z_enum item_kinds) (field raw "type");
  id ← z_optional z_string (field raw "id");
  deviceId ← z_optional z_string (field raw "deviceId");
  Some {| uri := uri; type := type; id := id; deviceId := deviceId |}.

Definition handler (a : args) : Prog Envelope :=
  if negb (truthy (uri a)) && (negb (truthy (type a)) || negb (truthy (id a)))
  then
    mret (error_content
      "Error: Must provide either a URI or both a type and ID")
  else
    let spotifyUri :=
      if negb (truthy (uri a)) && truthy (type a) && truthy (id a)
      then Some ("spotify:" +:+ or_else (type a) "" +:+ ":"
                   +:+ or_else (id a) "")
      else uri a in
    _ ← handleSpotifyRequest
      (let device := or_else (deviceId a) "" in
       if negb (truthy spotifyUri)
       then call (player_startResumePlayback device None None)
       else
         if bool_decide (type a = Some "track")
         then call (player_startResumePlayback device None
                      (Some [or_else spotifyUri ""]))
         else call (player_startResumePlayback device
                      (Some (or_else spotifyUri "")) None));
    mret (text_content
      ("Started playing " +:+ or_else (type a) "music" +:+ " "
         +:+ (if truthy (id a)
              then "(ID: " +:+ or_else (id a) "" +:+ ")"
              else ""))).
End PlayMusic.

Definition playMusic : tool := {|
  name := "playMusic";
  description := "Start playing a Spotify track, album, artist, or playlist";
  schema := PlayMusic.schema;
  handler := PlayMusic.handler |}.

Module PlaybackAction.
Record args : Type := { action : string; deviceId : option string }.

Definition schema (raw : RawArgs) : option args :=
  action ← z_enum ["pause"; "skipToNext"; "skipToPrevious"; "resume"]
             (field raw "action");
  deviceId ← z_optional z_string (field raw "deviceId");
  Some {| action := action; deviceId := deviceId |}.

(** [successMessage] starts as [''] and is assigned by the operation
    after its SDK call; the operation is rendered as returning the value
    the variable holds when it ends. *)
Definition handler (a : args) : Prog Envelope :=
  successMessage ← handleSpotifyRequest
    (let device := or_else (deviceId a) "" in
     if String.eqb (action a) "pause" then
       _ ← call (player_pausePlayback device); mret "Playback paused"
     else if String.eqb (action a) "resume" then
       _ ← call (player_startResumePlayback device None None);
       mret "Playback resumed"
     else if String.eqb (action a) "skipToNext" then
       _ ← call (player_skipToNext device); mret "Skipped to next track"
     else if String.eqb (action a) "skipToPrevious" then
       _ ← call (player_skipToPrevious device);
       mret "Skipped to previous track"
     else mret "");
  mret (text_content successMessage).
End PlaybackAction.

Definition playbackAction : tool := {|
  name := "playbackAction";
  description := "Perform a playback action (pause, resume, skip to next, skip to previous)";
  schema := PlaybackAction.schema;
  handler := PlaybackAction.handler |}.

Definition playTools : list tool := [playMusic; playbackAction].

(** ** write.ts *)

(** [`spotify:track:${id}`] *)
Definition track_uri (id : string) : string := "spotify:track:" +:+ id.

(** [`track${n === 1 ? '' : 's'}`] *)
Definition plural (n : nat) : string := if (n =? 1)%nat then "" else "s".

Module CreatePlaylist.
Record args : Type := {
  name : string;
  description : option string;
  public : option bool }.

Definition schema (raw : RawArgs) : option args :=
  name ← z_string (field raw "name");
  description ← z_optional z_string (field raw "description");
  public ← z_optional z_boolean (field raw "public");
  Some {| name := name; description := description; public := public |}.

Definition handler (a : args) : Prog Envelope :=
  let isPublic := default false (public a) in
  result ← handleSpotifyRequest
    (me ← call currentUser_profile;
     call (playlists_createPlaylist (id_of me)
             {| req_name := name a;
                req_description := description a;
                req_public := isPublic |}));
  mret (text_content
    ("Successfully created playlist " +:+ dq +:+ name a +:+ dq +:+ nl
       +:+ "Playlist ID: " +:+ id_of result)).
End CreatePlaylist.

Definition createPlaylist : tool := {|
  name := "createPlaylist";
  description := "Create a new playlist on Spotify";
  schema := CreatePlaylist.schema;
  handler := CreatePlaylist.handler |}.

Module AddTracksToPlaylist.
Record args : Type := {
  playlistId : string;
  trackIds : list string;
  position : option Q }.

Definition schema (raw : RawArgs) : option args :=
  playlistId ← z_string (field raw "playlistId");
  trackIds ← z_array z_string (field raw "trackIds");
  position ← z_optional (z_nonnegative z_number) (field raw "position");
  Some {| playlistId := playlistId; trackIds := trackIds;
          position := position |}.

Definition handler (a : args) : Prog Envelope :=
  if (length (trackIds a) =? 0)%nat
  then mret (text_content "Error: No track IDs provided")
  else
    try_catch
      (let trackUris := track_uri <$> trackIds a in
       _ ← handleSpotifyRequest
         (call (playlists_addItemsToPlaylist (playlistId a) trackUris
                  (position a)));
       mret (text_content
         ("Successfully added "
            +:+ Number_toString (Z.of_nat (length (trackIds a)))
            +:+ " track" +:+ plural (length (trackIds a))
            +:+ " to playlist (ID: " +:+ playlistId a +:+ ")")))
      (fun error =>
         mret (text_content
           ("Error adding tracks to playlist: " +:+ error_message error))).
End AddTracksToPlaylist.

Definition addTracksToPlaylist : tool := {|
  name := "addTracksToPlaylist";
  description := "Add tracks to a Spotify playlist";
  schema := AddTracksToPlaylist.schema;
  handler := AddTracksToPlaylist.handler |}.

Module AddToQueue.
Record args : Type := {
  uri : option string;
  type : option string;
  id : option string;
  deviceId : option string }.

Definition schema (raw : RawArgs) : option args :=
  uri ← z_optional z_string (field raw "uri");
  type ← z_optional (z_enum item_kinds) (field raw "type");
  id ← z_optional z_string (field raw "id");
  deviceId ← z_optional z_string (field raw "deviceId");
  Some {| uri := uri; type := type; id := id; deviceId := deviceId |}.

Definition handler (a : args) : Prog Envelope :=
  let spotifyUri :=
    if negb (truthy (uri a)) && truthy (type a) && truthy (id a)
    then Some ("spotify:" +:+ or_else (type a) "" +:+ ":"
                 +:+ or_else (id a) "")
    else uri a in
  if negb (truthy spotifyUri)
  then
    mret (error_content
      "Error: Must provide either a URI or both a type and ID")
  else
    _ ← handleSpotifyRequest
      (call (player_addItemToPlaybackQueue (or_else spotifyUri "")
               (or_else (deviceId a) "")));
    mret (text_content
      ("Added item " +:+ or_else spotifyUri "" +:+ " to queue")).
End AddToQueue.

Definition addToQueue : tool := {|
  name := "addToQueue";
  description := "Adds a track, album, artist or playlist to the playback queue";
  schema := AddToQueue.schema;
  handler := AddToQueue.handler |}.

Module RemoveTracksFromPlaylist.
Record args : Type := { playlistId : string; trackIds : list string }.

Definition schema (raw : RawArgs) : option args :=
  playlistId ← z_string (field raw "playlistId");
  trackIds ← z_array z_string (field raw "trackIds");
  Some {| playlistId := playlistId; trackIds := trackIds |}.

Definition handler (a : args) : Prog Envelope :=
  if (length (trackIds a) =? 0)%nat
  then mret (text_content "Error: No track IDs provided")
  else
    try_catch
      (let tracks := track_uri <$> trackIds a in
       _ ← handleSpotifyRequest
         (call (playlists_removeItemsFromPlaylist (playlistId a) tracks));
       mret (text_content
         ("Successfully removed "
            +:+ Number_toString (Z.of_nat (length (trackIds a)))
            +:+ " track" +:+ plural (length (trackIds a))
            +:+ " from playlist (ID: " +:+ playlistId a +:+ ")")))
      (fun error =>
         mret (text_content
           ("Error removing tracks from playlist: "
              +:+ error_message error))).
End RemoveTracksFromPlaylist.

Definition removeTracksFromPlaylist : tool := {|
  name := "removeTracksFromPlaylist";
  description := "Remove tracks from a Spotify playlist";
  schema := RemoveTracksFromPlaylist.schema;
  handler := RemoveTracksFromPlaylist.handler |}.

Definition writeTools : list tool := [
  addToQueue;
  addTracksToPlaylist;
  createPlaylist;
  removeTracksFromPlaylist ].

(** ** index.ts *)

(** Every tool is registered with the server under its name. *)
Definition registry : list tool := playTools ++ readTools ++ writeTools.

(** What becomes of a call that reaches the server. *)
Inductive Dispatch : Type :=
| UnknownTool
| InvalidArguments
| Handle (p : Prog Envelope).

(** Modelled from the spec: the transport (the MCP server of the SDK, not
    part of this repository).  The arguments of a call are "validated
    against the tool's schema before the handler runs; validation failure
    must prevent the handler from executing". *)
Definition callTool (t : tool) (raw : RawArgs) : Dispatch :=
  match schema t raw with
  | Some a => Handle (handler t a)
  | None => InvalidArguments
  end.

Definition server_call (tool_name : string) (raw : RawArgs) : Dispatch :=
  match list_find (fun t => name t = tool_name) registry with
  | Some (_, t) => callTool t raw
  | None => UnknownTool
  end.

(** ** Notions used in the statements *)

(** The two decimal digits of the seconds field. *)
Definition digit (n : Z) : ascii := ascii_of_nat (48 + Z.to_nat n).

Definition is_digit (c : ascii) : bool :=
  (48 <=? nat_of_ascii c)%nat && (nat_of_ascii c <=? 57)%nat.

Fixpoint all_digits (s : string) : bool :=
  match s with
  | EmptyString => true
  | String c r => is_digit c && all_digits r
  end.

(** The dispatcher's credential step succeeds in [w] for the first
    request of an invocation. *)
Definition authorised (w : World) : Prop := w 0%nat Credential = Fulfilled tt.

(** The answer of the SDK to the request that follows the credential step. *)
Definition answers (w : World) (c : ApiCall) (x : ApiReply c) : Prop :=
  w 1%nat (Api c) = Fulfilled x.



(** The run that starts with the request [r], answered, and goes on as
    [rest]. *)
Definition answered {A} (r : Request) (rest : Run A) : Run A :=
  {| requests := r :: requests rest;
     rejection := rejection rest;
     outcome := outcome rest |}.

(** The run that starts with the request [r], refused with [e], and goes on
    as [rest]. *)
Definition refused {A} (r : Request) (e : JsThrown) (rest : Run A) : Run A :=
  {| requests := r :: requests rest;
     rejection := Some e;
     outcome := outcome rest |}.

(** The run that throws [e] without a request. *)
Definition thrown {A} (e : JsThrown) : Run A :=
  {| requests := []; rejection := None; outcome := Rejected e |}.



(** The two short-circuit messages. *)
Definition must_provide : string :=
  "Error: Must provide either a URI or both a type and ID".






(** Sample replies: a song, and a history of a removed track and a song. *)
Definition song : Item := {|
  item_type := "track";
  item_name := "Bohemian Rhapsody";
  item_id := "t1";
  item_duration_ms := 354000;
  item_artists := Some [ {| artist_name := "Queen"; artist_id := "q" |} ];
  item_album := Some {| albumref_name := Some "A Night at the Opera" |} |}.

Definition history : Page PlaylistedTrack :=
  {| items := [ {| track := None |}; {| track := Some song |} ] |}.

(** The tools whose handler has no [try]/[catch] around the dispatch. *)
Definition uncaught_tools : list tool := [
  playMusic; playbackAction;
  getUserPlaylists; getPlaylistTracks; getRecentlyPlayed; getFollowedArtists;
  getUserTopItems;
  addToQueue; createPlaylist ].

(** Every value the program can return satisfies [P]. *)
Fixpoint returns_only {A} (P : A -> Prop) (p : Prog A) : Prop :=
  match p with
  | Ret a => P a
  | Throw _ => True
  | Vis r k => forall x, returns_only P (k x)
  end.

(** Exactly one content block, of type [text]. *)
Definition one_text_block (content : Envelope) : Prop :=
  exists (text : string) (flag : option bool),
    content = [ {| block_type := "text"; block_text := text;
                   block_isError := flag |} ].

(** Sample argument objects. *)
Definition search_queen : RawArgs :=
  {[ "query" := JStr "queen"; "type" := JStr "track" ]}.

Definition search_queen_51 : RawArgs :=
  <["limit" := JNum 51%Q]> search_queen.

(** Sample environments. *)
Definition no_reply (c : ApiCall) : ApiReply c :=
  match c return ApiReply c with
  | search _ _ _ _ _ => {| tracks := None; albums := None; playlists := None |}
  | player_getCurrentlyPlayingTrack => None
  | currentUser_playlists_playlists _ => {| items := [] |}
  | playlists_getPlaylistItems _ _ _ _ => {| playlist_items := None |}
  | player_getRecentlyPlayedTracks _ => {| items := [] |}
  | currentUser_followedArtists _ _ => {| artists := {| items := [] |} |}
  | currentUser_topItems _ _ _ => {| items := [] |}
  | currentUser_profile => {| id_of := "me" |}
  | playlists_createPlaylist _ _ => {| id_of := "new" |}
  | player_startResumePlayback _ _ _ => tt
  | player_pausePlayback _ => tt
  | player_skipToNext _ => tt
  | player_skipToPrevious _ => tt
  | playlists_addItemsToPlaylist _ _ _ => tt
  | player_addItemToPlaybackQueue _ _ => tt
  | playlists_removeItemsFromPlaylist _ _ => tt
  end.

(** Every request succeeds, with an empty reply. *)
Definition calm : World :=
  fun _ r => match r return Settled (Reply r) with
             | Credential => Fulfilled tt
             | Api c => Fulfilled (no_reply c)
             end.


(** The credential is valid and every SDK call fails with [e]. *)
Definition offline (e : JsThrown) : World :=
  fun _ r => match r return Settled (Reply r) with
             | Credential => Fulfilled tt
             | Api c => Rejected e
             end.

(** The credential refresh fails with [e]. *)
Definition logged_out (e : JsThrown) : World := fun _ r => Rejected e.

(** ** Notions used in the further properties *)

(** The program makes no request. *)
Definition silent {A} (p : Prog A) : Prop :=
  match p with
  | Vis _ _ => False
  | _ => True
  end.

Definition is_sdk_call (r : Request) : Prop :=
  match r with
  | Api _ => True
  | Credential => False
  end.

(** The program makes at most [fuel] requests, all of them SDK calls, and
    none after a call that was refused. *)
Fixpoint sdk_calls_only {A} (fuel : nat) (p : Prog A) {struct p} : Prop :=
  match p with
  | Ret _ | Throw _ => True
  | Vis r k =>
      is_sdk_call r
      /\ match fuel with
         | O => False
         | S f =>
             (forall e, silent (k (Rejected e)))
             /\ forall x, sdk_calls_only f (k (Fulfilled x))
         end
  end.

(** The program makes no request, or goes through the dispatcher once:
    the credential step first, nothing more if it is refused, and at most
    two SDK calls after it. *)
Definition dispatched_once {A} (p : Prog A) : Prop :=
  match p with
  | Ret _ | Throw _ => True
  | Vis r k =>
      r = Credential
      /\ (forall e, silent (k (Rejected e)))
      /\ forall x, sdk_calls_only 2 (k (Fulfilled x))
  end.

(** The program throws nothing of its own: it can only end by throwing the
    exception of a request that was just refused. *)
Fixpoint rethrows_only {A} (p : Prog A) : Prop :=
  match p with
  | Ret _ => True
  | Throw _ => False
  | Vis r k =>
      (forall e, match k (Rejected e) with
                 | Ret _ => True
                 | Throw e' => e' = e
                 | Vis _ _ => False
                 end)
      /\ forall x, rethrows_only (k (Fulfilled x))
  end.

(** The program never ends by throwing. *)
Fixpoint never_throws {A} (p : Prog A) : Prop :=
  match p with
  | Ret _ => True
  | Throw _ => False
  | Vis r k => forall x, never_throws (k x)
  end.

(** The tools whose handler wraps the dispatch in [try]/[catch]. *)
Definition catching_tools : list tool :=
  [searchSpotify; getNowPlaying; addTracksToPlaylist; removeTracksFromPlaylist].


(** The request starts playback with the non-empty item [u] in exactly one
    of its two slots. *)
Definition plays_one_item (r : Request) : Prop :=
  exists (device u : string),
    u ≠ ""
    /\ (r = Api (player_startResumePlayback device (Some u) None)
        \/ r = Api (player_startResumePlayback device None (Some [u]))).

(** The tools that read a list, and the [limit] their SDK call carries. *)
Definition list_tools : list tool :=
  [getUserPlaylists; getPlaylistTracks; getRecentlyPlayed; getFollowedArtists;
   getUserTopItems].

Definition limit_of (c : ApiCall) : option Q :=
  match c with
  | search _ _ _ limit _ => Some limit
  | currentUser_playlists_playlists limit => Some limit
  | playlists_getPlaylistItems _ _ _ limit => Some limit
  | player_getRecentlyPlayedTracks limit => Some limit
  | currentUser_followedArtists _ limit => Some limit
  | currentUser_topItems _ _ limit => Some limit
  | _ => None
  end.

(** The fields a call cannot leave out, tool by tool. *)
Definition required_fields : list (tool * string) :=
  [ (searchSpotify, "query"); (searchSpotify, "type");
    (getPlaylistTracks, "playlistId");
    (getUserTopItems, "type"); (getUserTopItems, "time_range");
    (playbackAction, "action");
    (createPlaylist, "name");
    (addTracksToPlaylist, "playlistId"); (addTracksToPlaylist, "trackIds");
    (removeTracksFromPlaylist, "playlistId");
    (removeTracksFromPlaylist, "trackIds") ].

(** The tools that can be called with no argument at all. *)
Definition argument_free_tools : list tool :=
  [playMusic; getNowPlaying; getUserPlaylists; getRecentlyPlayed;
   getFollowedArtists; addToQueue].

(** Two search replies hold the same page for [type]. *)
Definition same_page (type : string) (r r' : SearchResults) : Prop :=
  if String.eqb type "track" then tracks r = tracks r'
  else if String.eqb type "album" then albums r = albums r'
  else if String.eqb type "playlist" then playlists r = playlists r'
  else True.



(** Every request succeeds; a search finds one album, whatever was asked
    for, and one unnamed playlist entry. *)
Definition one_album : SearchResults :=
  {| tracks := None;
     albums := Some {| items := [ {| album_name := "Jazz";
                                     album_artists := [];
                                     album_id := "a1" |} ] |};
     playlists := Some {| items := [Null] |} |}.

Definition album_shop : World :=
  fun _ r => match r return Settled (Reply r) with
             | Credential => Fulfilled tt
             | Api c =>
                 match c return Settled (ApiReply c) with
                 | search _ _ _ _ _ => Fulfilled one_album
                 | c' => Fulfilled (no_reply c')
                 end
             end.



(* ================================================================== *)
(** * Properties *)

(** ** Duration formatting *)

Lemma string_of_uint_digits (u : Decimal.uint) :
  all_digits (NilEmpty.string_of_uint u) = true.
Proof. induction u; simpl; auto. Qed.

Lemma Number_toString_digits (n : Z) :
  0 <= n -> all_digits (Number_toString n) = true.
Proof.
  intros Hn. unfold Number_toString.
  destruct n as [|p|p]; [reflexivity| |lia].
  simpl. unfold NilZero.string_of_uint.
  pose proof (string_of_uint_digits (Pos.to_uint p)) as H.
  destruct (Pos.to_uint p); auto.
Qed.

Lemma split_colon_digits (a b : string) :
  all_digits a = true -> split_colon (a +:+ ":" +:+ b) = Some (a, b).
Proof.
  induction a as [|c a IH]; simpl; intros H; [reflexivity|].
  apply andb_prop in H as [Hc Ha].
  rewrite (IH Ha).
  destruct (Ascii.eqb_spec c ":"%char) as [->|]; [discriminate Hc|reflexivity].
Qed.

Lemma parseInt_Number_toString (n : Z) :
  parseInt (Number_toString n) = Some n.
Proof.
  unfold parseInt, Number_toString.
  rewrite NilZero.isi.
  - simpl. f_equal. apply DecimalZ.of_to.
  - destruct n; simpl; try discriminate.
    intros [= H]. exact (Unsigned.to_uint_nonnil _ H).
  - destruct n; simpl; try discriminate.
    intros [= H]. exact (Unsigned.to_uint_nonnil _ H).
Qed.

Lemma below_60_cases (P : Z -> Prop) :
  (forall n : nat, (n < 60)%nat -> P (Z.of_nat n)) ->
  forall s, 0 <= s < 60 -> P s.
Proof.
  intros H s Hs. rewrite <- (Z2Nat.id s) by lia. apply H. lia.
Qed.

Lemma pad_seconds (s : Z) :
  0 <= s < 60 ->
  padStart 2 "0"%char (Number_toString s)
    = String (digit (s / 10)) (String (digit (s mod 10)) EmptyString)
  /\ parseInt (padStart 2 "0"%char (Number_toString s)) = Some s.
Proof.
  revert s. apply below_60_cases. intros n Hn.
  do 60 (destruct n as [|n]; [split; vm_compute; reflexivity|]).
  lia.
Qed.

(** C4. For every millisecond count [d >= 0], [formatDuration d] is [M:SS]:
    the decimal minutes, a colon and exactly two decimal digits of seconds
    (125000 gives 2:05); reading that string back and computing
    [minutes*60000 + seconds*1000] gives [d] rounded down to the second. *)
Theorem formatDuration_roundtrip (d : Z) :
  0 <= d ->
  let m := d / 60000 in
  let s := (d mod 60000) / 1000 in
  0 <= s < 60
  /\ formatDuration d
     = Number_toString m +:+ ":" +:+
       String (digit (s / 10)) (String (digit (s mod 10)) EmptyString)
  /\ parseDuration (formatDuration d) = Some (m, s)
  /\ option_map duration_ms_of (parseDuration (formatDuration d))
     = Some (d / 1000 * 1000)
  /\ formatDuration 125000 = "2:05"%string.
Proof.
  intros Hd m s.
  assert (Hs : 0 <= s < 60).
  { subst s. pose proof (Z.mod_pos_bound d 60000 ltac:(lia)).
    split; [apply Z.div_pos; lia | apply Z.div_lt_upper_bound; lia]. }
  assert (Hm : 0 <= m) by (subst m; apply Z.div_pos; lia).
  destruct (pad_seconds s Hs) as [Hpad Hparse].
  assert (Hround : parseDuration (formatDuration d) = Some (m, s)).
  { unfold formatDuration, parseDuration. fold m s.
    rewrite split_colon_digits by (apply Number_toString_digits; exact Hm).
    rewrite parseInt_Number_toString, Hparse. reflexivity. }
  repeat split; try lia.
  - unfold formatDuration. fold m s. rewrite Hpad. reflexivity.
  - exact Hround.
  - rewrite Hround. simpl. unfold duration_ms_of. simpl. f_equal.
    subst m s.
    pose proof (Z.div_mod d 60000 ltac:(lia)).
    pose proof (Z.div_mod (d mod 60000) 1000 ltac:(lia)).
    pose proof (Z.mod_pos_bound d 60000 ltac:(lia)).
    pose proof (Z.mod_pos_bound (d mod 60000) 1000 ltac:(lia)).
    pose proof (Z.div_mod d 1000 ltac:(lia)).
    pose proof (Z.mod_pos_bound d 1000 ltac:(lia)).
    assert (d / 1000 = 60 * (d / 60000) + d mod 60000 / 1000).
    { symmetry. apply (Z.div_unique d 1000 _ ((d mod 60000) mod 1000)); lia. }
    lia.
Qed.

Lemma formatDuration_roundtrip_witness :
  parseDuration (formatDuration 185999) = Some (3, 5).
Proof.
  pose proof (formatDuration_roundtrip 185999 ltac:(lia)) as H.
  simpl in H. destruct H as (_ & _ & H & _). exact H.
Defined.

(** ** Execution of the handlers' building blocks *)

Section Exec.
Context {A B : Type}.
Variable w : World.
Variable n : nat.

Lemma exec_ret (a : A) (k : A -> Prog B) :
  exec_from w n (mret a ≫= k) = exec_from w n (k a).
Proof. reflexivity. Qed.

Lemma exec_await (r : Request) (k : Reply r -> Prog B) :
  exec_from w n (await r ≫= k)
  = match w n r with
    | Fulfilled x => answered r (exec_from w (S n) (k x))
    | Rejected e => refused r e (thrown e)
    end.
Proof. cbn. unfold answered, refused. by destruct (w n r). Qed.

Lemma exec_call (c : ApiCall) (k : ApiReply c -> Prog B) :
  exec_from w n (call c ≫= k)
  = match w n (Api c) with
    | Fulfilled x => answered (Api c) (exec_from w (S n) (k x))
    | Rejected e => refused (Api c) e (thrown e)
    end.
Proof. apply exec_await. Qed.

Lemma exec_call_then {C} (c : ApiCall) (f : ApiReply c -> Prog A)
    (k : A -> Prog C) :
  exec_from w n ((call c ≫= f) ≫= k)
  = match w n (Api c) with
    | Fulfilled x => answered (Api c) (exec_from w (S n) (f x ≫= k))
    | Rejected e => refused (Api c) e (thrown e)
    end.
Proof. cbn. unfold answered, refused. by destruct (w n (Api c)). Qed.

Lemma exec_dispatch (action : Prog A) (k : A -> Prog B) :
  exec_from w n (handleSpotifyRequest action ≫= k)
  = match w n Credential with
    | Fulfilled _ => answered Credential (exec_from w (S n) (action ≫= k))
    | Rejected e => refused Credential e (thrown e)
    end.
Proof. cbn. unfold answered, refused. by destruct (w n Credential). Qed.

Lemma exec_try_ret (a : B) (h : JsThrown -> Prog B) :
  exec_from w n (try_catch (mret a) h) = exec_from w n (mret a).
Proof. reflexivity. Qed.

Lemma exec_try_call (c : ApiCall) (k : ApiReply c -> Prog B)
    (h : JsThrown -> Prog B) :
  exec_from w n (try_catch (call c ≫= k) h)
  = match w n (Api c) with
    | Fulfilled x => answered (Api c) (exec_from w (S n) (try_catch (k x) h))
    | Rejected e => refused (Api c) e (exec_from w (S n) (h e))
    end.
Proof. cbn. unfold answered, refused. by destruct (w n (Api c)). Qed.

Lemma exec_try_dispatch (action : Prog A) (k : A -> Prog B)
    (h : JsThrown -> Prog B) :
  exec_from w n (try_catch (handleSpotifyRequest action ≫= k) h)
  = match w n Credential with
    | Fulfilled _ =>
        answered Credential (exec_from w (S n) (try_catch (action ≫= k) h))
    | Rejected e => refused Credential e (exec_from w (S n) (h e))
    end.
Proof. cbn. unfold answered, refused. by destruct (w n Credential). Qed.
End Exec.

(** One step of a run: the next request and the cases of its reply. *)
Ltac rewrite_run E :=
  first [ rewrite E
        | let H := fresh in
          pose proof E as H; cbn [ApiReply Reply] in H; rewrite H; clear H
        | let H := fresh in
          pose proof E as H; cbn [ApiReply Reply] in H |- *; rewrite H;
          clear H ].

Ltac run_rewrite w :=
  lazymatch goal with
  | |- context [exec_from w ?n (try_catch (handleSpotifyRequest ?p ≫= ?k) ?h)] =>
      first [ rewrite exec_try_dispatch
            | rewrite_run (exec_try_dispatch w n p k h) ]
  | |- context [exec_from w ?n (handleSpotifyRequest ?p ≫= ?k)] =>
      first [ rewrite exec_dispatch | rewrite_run (exec_dispatch w n p k) ]
  | |- context [exec_from w ?n (try_catch (call ?c ≫= ?k) ?h)] =>
      rewrite_run (exec_try_call w n c k h)
  | |- context [exec_from w ?n ((call ?c ≫= ?f) ≫= ?k)] =>
      rewrite_run (exec_call_then w n c f k)
  | |- context [exec_from w ?n (call ?c ≫= ?k)] =>
      rewrite_run (exec_call w n c k)
  | |- context [exec_from w ?n (try_catch (mret ?a) ?h)] =>
      rewrite (exec_try_ret w n a h)
  | |- context [exec_from w ?n (mret ?a ≫= ?k)] =>
      rewrite (exec_ret w n a k)
  end.

Ltac run_step w :=
  run_rewrite w;
  try match goal with
      | |- context [match w ?n ?r with _ => _ end] => destruct (w n r) eqn:?
      end.

Ltac run w := unfold exec; repeat run_step w.

(** The run in an environment whose replies are known: [Hw] answers the
    credential step and [Hc] the SDK call. *)
Ltac run_known w Hw Hc :=
  unfold exec; run_rewrite w; rewrite Hw; run_rewrite w; rewrite Hc;
  cbn [outcome answered].

(** ** Playback start and queue addition *)

Section UriRule.
Variable w : World.

Lemma truthy_Some (s : string) : s ≠ "" -> truthy (Some s) = true.
Proof. intros H. unfold truthy. by destruct (String.eqb_spec s ""). Qed.

Lemma or_else_Some (s d : string) : s ≠ "" -> or_else (Some s) d = s.
Proof. intros H. unfold or_else. by destruct (String.eqb_spec s ""). Qed.

Lemma truthy_false (o : option string) :
  truthy o = false -> o = None \/ o = Some "".
Proof.
  destruct o as [s|]; unfold truthy; [|auto].
  destruct (String.eqb_spec s ""); [subst; auto | discriminate].
Qed.
End UriRule.

Section UriRuleRuns.
Variable w : World.



Hypothesis Hw : authorised w.


End UriRuleRuns.





(** ** Track URIs and context URIs *)

(** C2.  [playMusic] chooses between the track list and the context URI by
    the [type] argument, not by the URI: with type and id of a track the
    call carries the one-element track list, but a track URI given as [uri]
    without a type is sent as the context URI, and an album URI given with
    type [track] is sent as a track list. *)
Theorem playMusic_track_uri_as_context :
  requests (exec calm (PlayMusic.handler
     {| PlayMusic.uri := None; PlayMusic.type := Some "track";
        PlayMusic.id := Some "t1"; PlayMusic.deviceId := None |}))
  = [Credential;
     Api (player_startResumePlayback "" None (Some ["spotify:track:t1"]))]
  /\ requests (exec calm (PlayMusic.handler
     {| PlayMusic.uri := Some "spotify:track:t1"; PlayMusic.type := None;
        PlayMusic.id := None; PlayMusic.deviceId := None |}))
  = [Credential;
     Api (player_startResumePlayback "" (Some "spotify:track:t1") None)]
  /\ requests (exec calm (PlayMusic.handler
     {| PlayMusic.uri := Some "spotify:album:a1"; PlayMusic.type := Some "track";
        PlayMusic.id := Some "t1"; PlayMusic.deviceId := None |}))
  = [Credential;
     Api (player_startResumePlayback "" None (Some ["spotify:album:a1"]))].
Proof. repeat split. Qed.


(** ** Playlist track lists *)



Section TrackLists.
Variable w : World.





End TrackLists.




(** ** Search: bounds and defaults *)

Section Bounds.
Variables lo hi : Q.

Lemma z_bounded_rejects (q : Q) :
  (q < lo \/ hi < q)%Q ->
  z_optional (z_max hi (z_min lo z_number)) (JNum q) = None.
Proof.
  intros Hq. unfold z_optional, z_max, z_min, z_number. simpl.
  destruct (Qle_bool lo q) eqn:Hlo; simpl; [|reflexivity].
  destruct (Qle_bool q hi) eqn:Hhi; simpl; [|reflexivity].
  apply Qle_bool_iff in Hlo, Hhi.
  destruct Hq as [Hq|Hq]; exfalso; eapply Qlt_not_le; eauto.
Qed.

Lemma z_bounded_accepts (q : Q) :
  (lo <= q)%Q -> (q <= hi)%Q ->
  z_optional (z_max hi (z_min lo z_number)) (JNum q) = Some (Some q).
Proof.
  intros Hlo Hhi. apply Qle_bool_iff in Hlo, Hhi.
  unfold z_optional, z_max, z_min, z_number. simpl.
  rewrite Hlo. simpl. by rewrite Hhi.
Qed.

Lemma z_optional_undefined {A} (z : ZodType A) :
  z_optional z JUndefined = Some None.
Proof. reflexivity. Qed.
End Bounds.

Lemma searchSpotify_rejects_limit (raw : RawArgs) (q : Q) :
  field raw "limit" = JNum q -> (q < 1 \/ 50 < q)%Q ->
  SearchSpotify.schema raw = None.
Proof.
  intros Hf Hq. unfold SearchSpotify.schema.
  destruct (z_string _); [simpl|reflexivity].
  destruct (z_enum _ _); [simpl|reflexivity].
  by rewrite Hf, z_bounded_rejects.
Qed.

Lemma searchSpotify_rejects_offset (raw : RawArgs) (q : Q) :
  field raw "offset" = JNum q -> (q < 0 \/ 1000 < q)%Q ->
  SearchSpotify.schema raw = None.
Proof.
  intros Hf Hq. unfold SearchSpotify.schema.
  destruct (z_string _); [simpl|reflexivity].
  destruct (z_enum _ _); [simpl|reflexivity].
  destruct (z_optional _ (field raw "limit")); [simpl|reflexivity].
  by rewrite Hf, z_bounded_rejects.
Qed.

Lemma searchSpotify_schema_fields (raw : RawArgs) (a : SearchSpotify.args) :
  SearchSpotify.schema raw = Some a ->
  z_optional (z_max 50 (z_min 1 z_number)) (field raw "limit")
  = Some (SearchSpotify.limit a)
  /\ z_optional (z_max 1000 (z_min 0 z_number)) (field raw "offset")
     = Some (SearchSpotify.offset a).
Proof.
  unfold SearchSpotify.schema.
  destruct (z_string _); [simpl|discriminate].
  destruct (z_enum _ _); [simpl|discriminate].
  destruct (z_optional _ (field raw "limit")); [simpl|discriminate].
  destruct (z_optional _ (field raw "offset")); [simpl|discriminate].
  by intros [= <-].
Qed.

Lemma searchSpotify_requests (w : World) (a : SearchSpotify.args) :
  authorised w ->
  requests (exec w (SearchSpotify.handler a))
  = [Credential;
     Api (search (SearchSpotify.query a) [SearchSpotify.type a] None
            (default 20%Q (SearchSpotify.limit a))
            (default 0%Q (SearchSpotify.offset a)))].
Proof.
  unfold authorised, SearchSpotify.handler. cbv zeta. intros Hw.
  run w; done.
Qed.

(** C5.  A [searchSpotify] call whose [limit] is a number outside [1,50],
    or whose [offset] is a number outside [0,1000], fails validation: the
    server does not run the handler, so nothing is requested of the
    dispatcher.  A call that passes validation makes (once the credential
    step succeeds) the one search request, with limit 20 when [limit] is
    omitted and offset 0 when [offset] is omitted. *)
Theorem searchSpotify_bounds (w : World) (raw : RawArgs) :
  (forall q : Q, field raw "limit" = JNum q -> (q < 1 \/ 50 < q)%Q ->
     callTool searchSpotify raw = InvalidArguments
     /\ server_call "searchSpotify" raw = InvalidArguments)
  /\ (forall q : Q, field raw "offset" = JNum q -> (q < 0 \/ 1000 < q)%Q ->
     callTool searchSpotify raw = InvalidArguments
     /\ server_call "searchSpotify" raw = InvalidArguments)
  /\ (forall p : Prog Envelope,
     server_call "searchSpotify" raw = Handle p -> authorised w ->
     exists query type limit offset,
       requests (exec w p)
       = [Credential; Api (search query [type] None limit offset)]
       /\ (field raw "limit" = JUndefined -> limit = 20%Q)
       /\ (field raw "offset" = JUndefined -> offset = 0%Q)).
Proof.
  assert (Hcall : server_call "searchSpotify" raw = callTool searchSpotify raw)
    by reflexivity.
  rewrite Hcall. unfold callTool. cbn [schema handler searchSpotify].
  repeat split.
  - by rewrite (searchSpotify_rejects_limit raw q).
  - by rewrite (searchSpotify_rejects_limit raw q).
  - by rewrite (searchSpotify_rejects_offset raw q).
  - by rewrite (searchSpotify_rejects_offset raw q).
  - intros p Hp Hw.
    destruct (SearchSpotify.schema raw) as [a|] eqn:Ha; [|discriminate].
    injection Hp as <-.
    destruct (searchSpotify_schema_fields raw a Ha) as [Hl Ho].
    eexists _, _, _, _. split; [by apply searchSpotify_requests|].
    split; intros Hu.
    + rewrite Hu in Hl. by injection Hl as <-.
    + rewrite Hu in Ho. by injection Ho as <-.
Qed.

Lemma searchSpotify_bounds_witness :
  (callTool searchSpotify search_queen_51 = InvalidArguments
   /\ server_call "searchSpotify" search_queen_51 = InvalidArguments)
  /\ exists query type limit offset,
      requests (exec calm (SearchSpotify.handler
         {| SearchSpotify.query := "queen"; SearchSpotify.type := "track";
            SearchSpotify.limit := None; SearchSpotify.offset := None |}))
      = [Credential; Api (search query [type] None limit offset)]
      /\ (field search_queen "limit" = JUndefined -> limit = 20%Q)
      /\ (field search_queen "offset" = JUndefined -> offset = 0%Q).
Proof.
  split.
  - destruct (searchSpotify_bounds calm search_queen_51) as (Hlimit & _).
    apply (Hlimit 51%Q); [reflexivity | right; reflexivity].
  - destruct (searchSpotify_bounds calm search_queen) as (_ & _ & Hrun).
    apply Hrun; reflexivity.
Defined.

(** ** Listings *)



Section Numbered.
Context {X : Type}.
Variable f : nat -> X -> string.
Hypothesis f_numbers :
  forall i x, exists rest, f i x = ordinal i +:+ ". " +:+ rest.


End Numbered.








Section Listings.
Variable w : World.
Hypothesis Hw : authorised w.





End Listings.




(** ** Now playing *)

Section NowPlaying.
Variable w : World.
Hypothesis Hw : authorised w.
Variable reply : option PlaybackState.
Hypothesis Hc : answers w player_getCurrentlyPlayingTrack reply.

End NowPlaying.





(** ** Failures of the dispatch call *)


Section Failures.
Variable w : World.
Variable e : JsThrown.













End Failures.



(** ** Result envelopes *)

Section ReturnsOnly.
Context {A : Type}.
Variable P : A -> Prop.

Lemma returns_only_exec (p : Prog A) (w : World) (n : nat) (a : A) :
  returns_only P p -> outcome (exec_from w n p) = Fulfilled a -> P a.
Proof.
  revert n. induction p as [x|e|r k IH]; intros n Hp Hout; simpl in *.
  - by injection Hout as <-.
  - discriminate.
  - exact (IH _ _ (Hp _) Hout).
Qed.

Lemma returns_only_bind {B} (p : Prog B) (f : B -> Prog A) :
  (forall b, returns_only P (f b)) -> returns_only P (p ≫= f).
Proof.
  intros Hf. induction p as [x|e|r k IH]; cbn; [apply Hf|exact I|].
  intros x. apply IH.
Qed.

Lemma returns_only_try (p : Prog A) (h : JsThrown -> Prog A) :
  returns_only P p -> (forall e, returns_only P (h e)) ->
  returns_only P (try_catch p h).
Proof.
  intros Hp Hh. induction p as [x|e|r k IH]; cbn; [exact Hp|apply Hh|].
  intros x. apply IH, Hp.
Qed.
End ReturnsOnly.

Lemma text_content_one_block (text : string) : one_text_block (text_content text).
Proof. by eexists _, _. Qed.

Lemma error_content_one_block (text : string) :
  one_text_block (error_content text).
Proof. by eexists _, _. Qed.

(** Walks a handler down to the values it returns. *)
Ltac to_returns :=
  repeat first
    [ apply returns_only_try; [|intros ?]
    | apply returns_only_bind; intros ?
    | apply text_content_one_block
    | apply error_content_one_block
    | case_match ].

Lemma registry_one_text_block (t : tool) (a : Args t) :
  t ∈ registry -> returns_only one_text_block (handler t a).
Proof.
  intros Ht. unfold registry, playTools, readTools, writeTools in Ht.
  cbn [app] in Ht. rewrite !elem_of_cons, elem_of_nil in Ht.
  destruct Ht as [->|[->|[->|[->|[->|[->|[->|[->|[->|[->|[->|[->|[->|[]]]]]]]]]]]]]].
  - change (returns_only one_text_block (PlayMusic.handler a)).
    unfold PlayMusic.handler. to_returns.
  - change (returns_only one_text_block (PlaybackAction.handler a)).
    unfold PlaybackAction.handler. to_returns.
  - change (returns_only one_text_block (SearchSpotify.handler a)).
    unfold SearchSpotify.handler. to_returns.
  - change (returns_only one_text_block (GetNowPlaying.handler a)).
    unfold GetNowPlaying.handler. to_returns.
  - change (returns_only one_text_block (GetUserPlaylists.handler a)).
    unfold GetUserPlaylists.handler. to_returns.
  - change (returns_only one_text_block (GetPlaylistTracks.handler a)).
    unfold GetPlaylistTracks.handler. to_returns.
  - change (returns_only one_text_block (GetRecentlyPlayed.handler a)).
    unfold GetRecentlyPlayed.handler. to_returns.
  - change (returns_only one_text_block (GetFollowedArtists.handler a)).
    unfold GetFollowedArtists.handler. to_returns.
  - change (returns_only one_text_block (GetUserTopItems.handler a)).
    unfold GetUserTopItems.handler. to_returns.
  - change (returns_only one_text_block (AddToQueue.handler a)).
    unfold AddToQueue.handler. to_returns.
  - change (returns_only one_text_block (AddTracksToPlaylist.handler a)).
    unfold AddTracksToPlaylist.handler. to_returns.
  - change (returns_only one_text_block (CreatePlaylist.handler a)).
    unfold CreatePlaylist.handler. to_returns.
  - change (returns_only one_text_block (RemoveTracksFromPlaylist.handler a)).
    unfold RemoveTracksFromPlaylist.handler. to_returns.
Qed.

(** C9.  For every tool of the registry, every argument value and every
    environment: if the handler returns, the envelope holds exactly one
    content block, whose type is [text] and whose payload is a string.  The
    same holds of a call that the server lets through validation. *)
Theorem one_text_block_returned (t : tool) (w : World) (content : Envelope) :
  t ∈ registry ->
  (forall a : Args t,
      outcome (exec w (handler t a)) = Fulfilled content ->
      exists (text : string) (flag : option bool),
        content = [ {| block_type := "text"; block_text := text;
                       block_isError := flag |} ])
  /\ (forall (raw : RawArgs) (p : Prog Envelope),
      callTool t raw = Handle p ->
      outcome (exec w p) = Fulfilled content ->
      length content = 1%nat
      /\ Forall (fun b => block_type b = "text") content).
Proof.
  intros Ht.
  assert (Hone : forall a : Args t,
             outcome (exec w (handler t a)) = Fulfilled content ->
             one_text_block content).
  { intros a. apply returns_only_exec, registry_one_text_block, Ht. }
  split; [exact Hone|].
  intros raw p Hp Hout. unfold callTool in Hp.
  destruct (schema t raw) as [a|]; [|discriminate].
  injection Hp as <-.
  destruct (Hone a Hout) as (text & flag & ->).
  split; [reflexivity|]. by repeat constructor.
Qed.

Lemma one_text_block_returned_witness :
  outcome (exec calm (handler playMusic
     {| PlayMusic.uri := None; PlayMusic.type := None;
        PlayMusic.id := None; PlayMusic.deviceId := None |}))
  = Fulfilled (error_content must_provide)
  /\ exists (text : string) (flag : option bool),
      error_content must_provide
      = [ {| block_type := "text"; block_text := text;
             block_isError := flag |} ].
Proof.
  split; [reflexivity|].
  destruct (one_text_block_returned playMusic calm
              (error_content must_provide)) as [H _].
  - unfold registry. apply elem_of_app. left.
    unfold playTools. apply elem_of_cons. left; reflexivity.
  - exact (H {| PlayMusic.uri := None; PlayMusic.type := None;
                PlayMusic.id := None; PlayMusic.deviceId := None |} eq_refl).
Defined.

(** ** The offset of the top items *)

(** C10.  [getUserTopItems] never reads [offset]: two argument values
    that differ only in [offset] give the same program, hence the same
    requests and the same result in every environment; and two calls whose
    argument objects differ only in the number given as [offset] (or in
    giving none) are handled alike by the server. *)
Theorem getUserTopItems_ignores_offset
    (type time_range : string) (limit o1 o2 : option Q) :
  let a1 := {| GetUserTopItems.type := type;
               GetUserTopItems.time_range := time_range;
               GetUserTopItems.limit := limit;
               GetUserTopItems.offset := o1 |} in
  let a2 := {| GetUserTopItems.type := type;
               GetUserTopItems.time_range := time_range;
               GetUserTopItems.limit := limit;
               GetUserTopItems.offset := o2 |} in
  GetUserTopItems.handler a1 = GetUserTopItems.handler a2
  /\ (forall w : World,
      requests (exec w (GetUserTopItems.handler a1))
      = requests (exec w (GetUserTopItems.handler a2))
      /\ outcome (exec w (GetUserTopItems.handler a1))
         = outcome (exec w (GetUserTopItems.handler a2)))
  /\ (forall (raw : RawArgs) (q1 q2 : Q),
      callTool getUserTopItems (<["offset" := JNum q1]> raw)
      = callTool getUserTopItems (<["offset" := JNum q2]> raw)
      /\ callTool getUserTopItems (<["offset" := JNum q1]> raw)
         = callTool getUserTopItems (delete "offset" raw)).
Proof.
  intros a1 a2. split; [reflexivity|]. split; [by intros w|].
  intros raw q1 q2. unfold callTool. cbn [schema handler getUserTopItems].
  unfold GetUserTopItems.schema, field.
  rewrite !lookup_insert_eq, lookup_delete_eq.
  rewrite !lookup_insert_ne, !lookup_delete_ne by done.
  destruct (z_string (default JUndefined (raw !! "type"))); [|done].
  destruct (z_string (default JUndefined (raw !! "time_range"))); [|done].
  by destruct (z_limit (default JUndefined (raw !! "limit"))).
Qed.


(* ================================================================== *)
(** * Further properties of the handlers *)

(** ** The shape of an invocation *)

Lemma silent_exec {A} (p : Prog A) (w : World) (n : nat) :
  silent p -> requests (exec_from w n p) = [].
Proof. by destruct p. Qed.

Lemma sdk_calls_only_exec {A} (p : Prog A) (fuel : nat) (w : World) (n : nat) :
  sdk_calls_only fuel p ->
  exists calls,
    requests (exec_from w n p) = Api <$> calls
    /\ (length calls <= fuel)%nat
    /\ forall (i : nat) (r : Request) (e : JsThrown),
        requests (exec_from w n p) !! i = Some r ->
        w (n + i)%nat r = Rejected e ->
        length (requests (exec_from w n p)) = S i.
Proof.
  revert fuel n. induction p as [a|e|r k IH]; intros fuel n Hp.
  - exists []. repeat split; [simpl; lia|]. intros i r e Hi. discriminate Hi.
  - exists []. repeat split; [simpl; lia|]. intros i r e' Hi. discriminate Hi.
  - destruct Hp as [Hr Hk]. destruct r as [|c]; [done|].
    destruct fuel as [|f]; [done|]. destruct Hk as [Hstop Hgo].
    cbn [exec_from requests].
    destruct (w n (Api c)) as [x|e] eqn:Hw.
    + destruct (IH (Fulfilled x) f (S n) (Hgo x)) as (calls & Hreq & Hlen & Hlast).
      exists (c :: calls). rewrite Hreq. repeat split; [simpl; lia|].
      intros [|i] r e Hi Hrej.
      * injection Hi as <-. rewrite Nat.add_0_r, Hw in Hrej. discriminate.
      * rewrite <- Hreq in *. simpl. f_equal.
        apply (Hlast i r e Hi). by replace (S n + i)%nat with (n + S i)%nat by lia.
    + rewrite (silent_exec _ w (S n) (Hstop e)).
      exists [c]. repeat split; [simpl; lia|].
      intros [|i] r e' Hi Hrej; [reflexivity|discriminate Hi].
Qed.

Lemma dispatched_once_exec {A} (p : Prog A) (w : World) :
  dispatched_once p ->
  let made := requests (exec w p) in
  (made = []
   \/ exists calls,
       made = Credential :: (Api <$> calls)
       /\ (length calls <= 2)%nat
       /\ forall e, w 0%nat Credential = Rejected e -> calls = [])
  /\ forall (i : nat) (r : Request) (e : JsThrown),
      made !! i = Some r -> w i r = Rejected e -> length made = S i.
Proof.
  destruct p as [a|e|r k]; intros Hp made; subst made.
  - split; [by left|]. intros i r e Hi. discriminate Hi.
  - split; [by left|]. intros i r e' Hi. discriminate Hi.
  - destruct Hp as (-> & Hstop & Hgo). unfold exec. cbn [exec_from requests].
    destruct (w 0%nat Credential) as [x|e] eqn:Hw.
    + destruct (sdk_calls_only_exec _ 2 w 1 (Hgo x))
        as (calls & Hreq & Hlen & Hlast).
      split.
      * right. exists calls. rewrite Hreq. repeat split; [done|]. intros e [=].
      * intros [|i] r e Hi Hrej.
        { injection Hi as <-. rewrite Hw in Hrej. discriminate. }
        simpl. f_equal. exact (Hlast i r e Hi Hrej).
    + rewrite (silent_exec _ w 1 (Hstop e)). split.
      * right. exists []. split; [reflexivity|]. split; [simpl; lia|done].
      * intros [|i] r e' Hi Hrej; [reflexivity|discriminate Hi].
Qed.

(** Walks a handler through every reply it can get. *)
Ltac walk :=
  repeat first
    [ progress cbn [mbind mret Prog_bind Prog_ret bind try_catch
                      handleSpotifyRequest call await
                      dispatched_once sdk_calls_only silent is_sdk_call
                      rethrows_only never_throws]
    | progress intros
    | split
    | exact I
    | reflexivity
    | case_match ].

Lemma registry_dispatched_once (t : tool) (a : Args t) :
  t ∈ registry -> dispatched_once (handler t a).
Proof.
  intros Ht. unfold registry, playTools, readTools, writeTools in Ht.
  cbn [app] in Ht. rewrite !elem_of_cons, elem_of_nil in Ht.
  destruct Ht as [->|[->|[->|[->|[->|[->|[->|[->|[->|[->|[->|[->|[->|[]]]]]]]]]]]]]].
  - change (dispatched_once (PlayMusic.handler a)).
    unfold PlayMusic.handler. walk.
  - change (dispatched_once (PlaybackAction.handler a)).
    unfold PlaybackAction.handler. walk.
  - change (dispatched_once (SearchSpotify.handler a)).
    unfold SearchSpotify.handler. walk.
  - change (dispatched_once (GetNowPlaying.handler a)).
    unfold GetNowPlaying.handler. walk.
  - change (dispatched_once (GetUserPlaylists.handler a)).
    unfold GetUserPlaylists.handler. walk.
  - change (dispatched_once (GetPlaylistTracks.handler a)).
    unfold GetPlaylistTracks.handler. walk.
  - change (dispatched_once (GetRecentlyPlayed.handler a)).
    unfold GetRecentlyPlayed.handler. walk.
  - change (dispatched_once (GetFollowedArtists.handler a)).
    unfold GetFollowedArtists.handler. walk.
  - change (dispatched_once (GetUserTopItems.handler a)).
    unfold GetUserTopItems.handler. walk.
  - change (dispatched_once (AddToQueue.handler a)).
    unfold AddToQueue.handler. walk.
  - change (dispatched_once (AddTracksToPlaylist.handler a)).
    unfold AddTracksToPlaylist.handler. walk.
  - change (dispatched_once (CreatePlaylist.handler a)).
    unfold CreatePlaylist.handler. walk.
  - change (dispatched_once (RemoveTracksFromPlaylist.handler a)).
    unfold RemoveTracksFromPlaylist.handler. walk.
Qed.

(** X1.  Whatever the tool, the arguments and the environment, an
    invocation makes no request at all, or goes through the dispatcher
    exactly once: the first request is the credential step, at most two SDK
    calls follow it, none is made when the credential step is refused, and
    no request follows a refused one (nothing is retried). *)
Theorem invocation_shape (t : tool) (a : Args t) (w : World) :
  t ∈ registry ->
  let made := requests (exec w (handler t a)) in
  (made = []
   \/ exists calls,
       made = Credential :: (Api <$> calls)
       /\ (length calls <= 2)%nat
       /\ forall e, w 0%nat Credential = Rejected e -> calls = [])
  /\ forall (i : nat) (r : Request) (e : JsThrown),
      made !! i = Some r -> w i r = Rejected e -> length made = S i.
Proof. intros Ht. by apply dispatched_once_exec, registry_dispatched_once. Qed.

Lemma invocation_shape_witness :
  length (requests (exec (offline (ErrorObject "down"))
            (handler createPlaylist
               {| CreatePlaylist.name := "Mix";
                  CreatePlaylist.description := None;
                  CreatePlaylist.public := None |}))) = 2%nat.
Proof.
  assert (Hin : createPlaylist ∈ registry).
  { unfold registry. apply elem_of_app. right. apply elem_of_app. right.
    unfold writeTools. rewrite !elem_of_cons. right; right; left; reflexivity. }
  destruct (invocation_shape createPlaylist
              {| CreatePlaylist.name := "Mix";
                 CreatePlaylist.description := None;
                 CreatePlaylist.public := None |}
              (offline (ErrorObject "down")) Hin) as [_ Hlast].
  exact (Hlast 1%nat (Api currentUser_profile) (ErrorObject "down")
           eq_refl eq_refl).
Defined.

(** ** What a handler throws *)

Lemma never_throws_exec {A} (p : Prog A) (w : World) (n : nat) :
  never_throws p -> exists a, outcome (exec_from w n p) = Fulfilled a.
Proof.
  revert n. induction p as [a|e|r k IH]; intros n Hp; [by exists a|done|].
  cbn [exec_from outcome]. apply IH, Hp.
Qed.

Lemma rethrows_only_exec {A} (p : Prog A) (w : World) (n : nat) (e : JsThrown) :
  rethrows_only p ->
  outcome (exec_from w n p) = Rejected e ->
  rejection (exec_from w n p) = Some e.
Proof.
  revert n. induction p as [a|e0|r k IH]; intros n Hp Hout; [done|done|].
  destruct Hp as [Hstop Hgo]. cbn [exec_from outcome rejection] in *.
  destruct (w n r) as [x|e1].
  - exact (IH _ _ (Hgo x) Hout).
  - specialize (Hstop e1). destruct (k (Rejected e1)) as [a|e2|r2 k2]; [done| |done].
    simpl in Hout. congruence.
Qed.

Lemma catching_tools_never_throw (t : tool) (a : Args t) :
  t ∈ catching_tools -> never_throws (handler t a).
Proof.
  intros Ht. unfold catching_tools in Ht.
  rewrite !elem_of_cons, elem_of_nil in Ht.
  destruct Ht as [->|[->|[->|[->|[]]]]].
  - change (never_throws (SearchSpotify.handler a)).
    unfold SearchSpotify.handler. walk.
  - change (never_throws (GetNowPlaying.handler a)).
    unfold GetNowPlaying.handler. walk.
  - change (never_throws (AddTracksToPlaylist.handler a)).
    unfold AddTracksToPlaylist.handler. walk.
  - change (never_throws (RemoveTracksFromPlaylist.handler a)).
    unfold RemoveTracksFromPlaylist.handler. walk.
Qed.

Lemma uncaught_tools_rethrow (t : tool) (a : Args t) :
  t ∈ uncaught_tools -> rethrows_only (handler t a).
Proof.
  intros Ht. unfold uncaught_tools in Ht.
  rewrite !elem_of_cons, elem_of_nil in Ht.
  destruct Ht as [->|[->|[->|[->|[->|[->|[->|[->|[->|[]]]]]]]]]].
  - change (rethrows_only (PlayMusic.handler a)).
    unfold PlayMusic.handler. walk.
  - change (rethrows_only (PlaybackAction.handler a)).
    unfold PlaybackAction.handler. walk.
  - change (rethrows_only (GetUserPlaylists.handler a)).
    unfold GetUserPlaylists.handler. walk.
  - change (rethrows_only (GetPlaylistTracks.handler a)).
    unfold GetPlaylistTracks.handler. walk.
  - change (rethrows_only (GetRecentlyPlayed.handler a)).
    unfold GetRecentlyPlayed.handler. walk.
  - change (rethrows_only (GetFollowedArtists.handler a)).
    unfold GetFollowedArtists.handler. walk.
  - change (rethrows_only (GetUserTopItems.handler a)).
    unfold GetUserTopItems.handler. walk.
  - change (rethrows_only (AddToQueue.handler a)).
    unfold AddToQueue.handler. walk.
  - change (rethrows_only (CreatePlaylist.handler a)).
    unfold CreatePlaylist.handler. walk.
Qed.

Lemma registry_split (t : tool) :
  t ∈ registry -> t ∈ catching_tools \/ t ∈ uncaught_tools.
Proof.
  intros Ht. unfold registry, playTools, readTools, writeTools in Ht.
  cbn [app] in Ht. unfold catching_tools, uncaught_tools.
  rewrite !elem_of_cons, elem_of_nil in *. tauto.
Qed.

(** X2.  The four tools with a [try]/[catch] ([searchSpotify],
    [getNowPlaying], [addTracksToPlaylist], [removeTracksFromPlaylist])
    return a result in every environment: no failure of the dispatcher or
    of the SDK makes them throw. *)
Theorem catching_tools_always_return (t : tool) (a : Args t) (w : World) :
  t ∈ catching_tools ->
  exists content, outcome (exec w (handler t a)) = Fulfilled content.
Proof. intros Ht. by apply never_throws_exec, catching_tools_never_throw. Qed.

Lemma catching_tools_always_return_witness :
  exists content,
    outcome (exec (logged_out (ErrorObject "expired"))
               (handler getNowPlaying tt))
    = Fulfilled content.
Proof.
  apply (catching_tools_always_return getNowPlaying tt).
  unfold catching_tools. rewrite !elem_of_cons. right; left; reflexivity.
Defined.

(** X3.  No handler throws an exception of its own: when an invocation
    of a registered tool ends by throwing [e], the tool is one of those
    without [try]/[catch] and [e] is the exception the environment raised
    in answer to one of its requests. *)
Theorem throws_only_what_was_raised (t : tool) (a : Args t) (w : World)
    (e : JsThrown) :
  t ∈ registry ->
  outcome (exec w (handler t a)) = Rejected e ->
  t ∈ uncaught_tools /\ rejection (exec w (handler t a)) = Some e.
Proof.
  intros Ht Hout. destruct (registry_split t Ht) as [Hc|Hu].
  - destruct (never_throws_exec _ w 0 (catching_tools_never_throw t a Hc))
      as [content Hret].
    unfold exec in Hout. rewrite Hret in Hout. discriminate.
  - split; [exact Hu|].
    by apply rethrows_only_exec; [apply uncaught_tools_rethrow|].
Qed.

Lemma throws_only_what_was_raised_witness :
  rejection (exec (offline (Thrown_value "429"))
               (handler addToQueue
                  {| AddToQueue.uri := Some "spotify:track:t1";
                     AddToQueue.type := None; AddToQueue.id := None;
                     AddToQueue.deviceId := None |}))
  = Some (Thrown_value "429").
Proof.
  apply (throws_only_what_was_raised addToQueue); [|reflexivity].
  unfold registry. apply elem_of_app. right. apply elem_of_app. right.
  unfold writeTools. rewrite !elem_of_cons. left; reflexivity.
Defined.

(** ** Playback actions *)

Lemma z_enum_Some (values : list string) (v : JsVal) (s : string) :
  z_enum values v = Some s -> v = JStr s /\ s ∈ values.
Proof.
  unfold z_enum, z_string. destruct v; try discriminate. simpl.
  case_bool_decide; [|discriminate]. by intros [= <-].
Qed.

Lemma z_optional_string_Some (v : JsVal) (o : option string) :
  z_optional z_string v = Some o ->
  (v = JUndefined /\ o = None) \/ (exists s, v = JStr s /\ o = Some s).
Proof.
  destruct v; simpl; try discriminate; intros [= <-]; eauto.
Qed.




(** ** Playlist creation *)



(** ** The item that is played or queued *)

Lemma playMusic_uri_settled (a : PlayMusic.args) :
  negb (truthy (PlayMusic.uri a))
  && (negb (truthy (PlayMusic.type a)) || negb (truthy (PlayMusic.id a)))
  = false ->
  exists u,
    u ≠ ""
    /\ (if negb (truthy (PlayMusic.uri a)) && truthy (PlayMusic.type a)
             && truthy (PlayMusic.id a)
        then Some ("spotify:" +:+ or_else (PlayMusic.type a) "" +:+ ":"
                     +:+ or_else (PlayMusic.id a) "")
        else PlayMusic.uri a) = Some u.
Proof.
  intros Hguard.
  destruct (PlayMusic.uri a) as [u|] eqn:Hu.
  - unfold truthy in *. destruct (String.eqb_spec u "") as [->|Hne].
    + simpl in *. apply orb_false_iff in Hguard as [Ht Hi].
      apply negb_false_iff in Ht, Hi. rewrite Ht, Hi.
      eexists. split; [|reflexivity]. discriminate.
    + simpl. by exists u.
  - simpl in *. apply orb_false_iff in Hguard as [Ht Hi].
    apply negb_false_iff in Ht, Hi. rewrite Ht, Hi.
    eexists. split; [|reflexivity]. discriminate.
Qed.

(** X6.  [playMusic] never resumes playback without an item and never
    fills both slots: whatever the arguments and the environment, every
    request it makes besides the credential step starts playback with one
    non-empty URI, either as the context or as the only track. *)
Theorem playMusic_plays_one_item (w : World) (a : PlayMusic.args)
    (r : Request) :
  r ∈ requests (exec w (PlayMusic.handler a)) ->
  r = Credential \/ plays_one_item r.
Proof.
  unfold PlayMusic.handler.
  destruct (negb (truthy (PlayMusic.uri a)) && _) eqn:Hguard.
  { intros Hin. by apply elem_of_nil in Hin. }
  destruct (playMusic_uri_settled a Hguard) as (u & Hne & Huri).
  cbv zeta. rewrite Huri, truthy_Some, or_else_Some by done.
  cbn [negb]. cbv iota.
  destruct (bool_decide _); run w;
    cbn [requests answered refused thrown exec_from mret Prog_ret];
    rewrite !elem_of_cons, elem_of_nil;
    intros [->|[->|[]]] || intros [->|[]]; try (by left);
    right; exists (or_else (PlayMusic.deviceId a) ""), u; auto.
Qed.

Lemma playMusic_plays_one_item_witness :
  plays_one_item
    (Api (player_startResumePlayback "" (Some "spotify:album:a1") None)).
Proof.
  destruct (playMusic_plays_one_item calm
              {| PlayMusic.uri := None; PlayMusic.type := Some "album";
                 PlayMusic.id := Some "a1"; PlayMusic.deviceId := None |}
              (Api (player_startResumePlayback "" (Some "spotify:album:a1")
                      None))) as [H|H].
  - vm_compute. right. left.
  - discriminate H.
  - exact H.
Defined.



(** ** Limits of the list reads *)

Lemma z_limit_Some (v : JsVal) (o : option Q) :
  z_limit v = Some o ->
  (v = JUndefined /\ o = None)
  \/ exists q, v = JNum q /\ o = Some q /\ (1 <= q)%Q /\ (q <= 50)%Q.
Proof.
  unfold z_limit, z_optional, z_max, z_min, z_number.
  destruct v as [| |b|q|s|l]; simpl; try discriminate.
  - intros [= <-]. by left.
  - destruct (Qle_bool 1 q) eqn:Hlo; simpl; [|discriminate].
    destruct (Qle_bool q 50) eqn:Hhi; simpl; [|discriminate].
    intros [= <-]. right. exists q. apply Qle_bool_iff in Hlo, Hhi. auto.
Qed.

Lemma z_limit_rejects (q : Q) : (q < 1 \/ 50 < q)%Q -> z_limit (JNum q) = None.
Proof. apply z_bounded_rejects. Qed.

(** Tells the fields of a schema apart, one parse after the other. *)
Ltac schema_fields :=
  repeat match goal with
         | |- context [@mbind option _ _ _ _ ?m] =>
             destruct m eqn:?; cbn [mbind option_bind]
         end.

Lemma list_tools_schema (t : tool) (raw : RawArgs) :
  t ∈ list_tools ->
  match schema t raw with
  | Some a =>
      exists o, z_limit (field raw "limit") = Some o
                /\ forall w, authorised w ->
                     exists c, requests (exec w (handler t a))
                               = [Credential; Api c]
                               /\ limit_of c = Some (default 50%Q o)
  | None => True
  end
  /\ (z_limit (field raw "limit") = None -> schema t raw = None).
Proof.
  intros Ht. unfold list_tools in Ht. rewrite !elem_of_cons, elem_of_nil in Ht.
  destruct Ht as [->|[->|[->|[->|[->|[]]]]]]; cbn [schema handler
    getUserPlaylists getPlaylistTracks getRecentlyPlayed getFollowedArtists
    getUserTopItems].
  - unfold GetUserPlaylists.schema, GetUserPlaylists.handler.
    split; [|by intros ->]. schema_fields; [|done].
    eexists. split; [reflexivity|]. intros w Hw. unfold authorised in Hw.
    eexists. cbv zeta.
    split; [run w; simplify_eq; repeat case_match; reflexivity|reflexivity].
  - unfold GetPlaylistTracks.schema, GetPlaylistTracks.handler.
    split; [|intros ->; by schema_fields]. schema_fields; try done.
    eexists. split; [reflexivity|]. intros w Hw. unfold authorised in Hw.
    eexists. cbv zeta.
    split; [run w; simplify_eq; repeat case_match; reflexivity|reflexivity].
  - unfold GetRecentlyPlayed.schema, GetRecentlyPlayed.handler.
    split; [|by intros ->]. schema_fields; [|done].
    eexists. split; [reflexivity|]. intros w Hw. unfold authorised in Hw.
    eexists. cbv zeta.
    split; [run w; simplify_eq; repeat case_match; reflexivity|reflexivity].
  - unfold GetFollowedArtists.schema, GetFollowedArtists.handler.
    split; [|intros ->; by schema_fields]. schema_fields; try done.
    eexists. split; [reflexivity|]. intros w Hw. unfold authorised in Hw.
    eexists. cbv zeta.
    split; [run w; simplify_eq; repeat case_match; reflexivity|reflexivity].
  - unfold GetUserTopItems.schema, GetUserTopItems.handler.
    split; [|intros ->; by schema_fields]. schema_fields; try done.
    eexists. split; [reflexivity|]. intros w Hw. unfold authorised in Hw.
    eexists. cbv zeta.
    split; [run w; simplify_eq; repeat case_match; reflexivity|reflexivity].
Qed.

(** X8.  For each of the five list reads ([getUserPlaylists],
    [getPlaylistTracks], [getRecentlyPlayed], [getFollowedArtists],
    [getUserTopItems]): a [limit] that is a number below 1 or above 50 fails
    validation, so the handler does not run; a call that passes validation
    makes, once the credential step succeeds, one SDK call whose limit lies
    between 1 and 50: the number given, or 50 when [limit] is omitted. *)
Theorem list_limits (t : tool) (raw : RawArgs) (w : World) :
  t ∈ list_tools ->
  (forall q : Q, field raw "limit" = JNum q -> (q < 1 \/ 50 < q)%Q ->
     callTool t raw = InvalidArguments)
  /\ (forall p : Prog Envelope,
      callTool t raw = Handle p -> authorised w ->
      exists (c : ApiCall) (l : Q),
        requests (exec w p) = [Credential; Api c]
        /\ limit_of c = Some l
        /\ (1 <= l)%Q /\ (l <= 50)%Q
        /\ (field raw "limit" = JUndefined -> l = 50%Q)
        /\ (forall q, field raw "limit" = JNum q -> l = q)).
Proof.
  intros Ht. destruct (list_tools_schema t raw Ht) as [Hsome Hnone].
  unfold callTool. split.
  - intros q Hf Hq. rewrite Hnone; [reflexivity|].
    rewrite Hf. by apply z_limit_rejects.
  - intros p Hp Hw. destruct (schema t raw) as [a|]; [|discriminate].
    injection Hp as <-. destruct Hsome as (o & Hl & Hrun).
    destruct (Hrun w Hw) as (c & Hreq & Hlim).
    exists c, (default 50%Q o). split; [exact Hreq|]. split; [exact Hlim|].
    destruct (z_limit_Some _ _ Hl) as [[Hu ->]|(q & Hq & -> & Hlo & Hhi)].
    + simpl. repeat split; try done. intros q Hq. rewrite Hq in Hu. discriminate.
    + simpl. repeat split; try done.
      * intros Hu. rewrite Hu in Hq. discriminate.
      * intros q' Hq'. rewrite Hq' in Hq. by injection Hq as ->.
Qed.

Lemma list_limits_witness :
  callTool getRecentlyPlayed {[ "limit" := JNum 0%Q ]} = InvalidArguments.
Proof.
  assert (Hin : getRecentlyPlayed ∈ list_tools).
  { unfold list_tools. rewrite !elem_of_cons. right; right; left; reflexivity. }
  destruct (list_limits getRecentlyPlayed {[ "limit" := JNum 0%Q ]} calm Hin)
    as [Hreject _].
  apply (Hreject 0%Q); [vm_compute; reflexivity|left; reflexivity].
Defined.

(** ** The search request *)

Lemma searchSpotify_schema_type (raw : RawArgs) (a : SearchSpotify.args) :
  SearchSpotify.schema raw = Some a ->
  field raw "query" = JStr (SearchSpotify.query a)
  /\ SearchSpotify.type a ∈ ["track"; "album"; "playlist"].
Proof.
  unfold SearchSpotify.schema.
  destruct (z_string (field raw "query")) as [q|] eqn:Hq; [|discriminate].
  cbn [mbind option_bind].
  destruct (z_enum _ (field raw "type")) as [ty|] eqn:Hty; [|discriminate].
  cbn [mbind option_bind]. schema_fields; try discriminate.
  intros [= <-]. cbn [SearchSpotify.query SearchSpotify.type].
  split; [|by destruct (z_enum_Some _ _ _ Hty)].
  unfold z_string in Hq. destruct (field raw "query"); try discriminate.
  by injection Hq as ->.
Qed.

Lemma z_bounded_Some (lo hi : Q) (v : JsVal) (o : option Q) :
  z_optional (z_max hi (z_min lo z_number)) v = Some o ->
  (v = JUndefined /\ o = None)
  \/ exists q, v = JNum q /\ o = Some q /\ (lo <= q)%Q /\ (q <= hi)%Q.
Proof.
  unfold z_optional, z_max, z_min, z_number.
  destruct v as [| |b|q|s|l]; simpl; try discriminate.
  - intros [= <-]. by left.
  - destruct (Qle_bool lo q) eqn:Hlo; simpl; [|discriminate].
    destruct (Qle_bool q hi) eqn:Hhi; simpl; [|discriminate].
    intros [= <-]. right. exists q. apply Qle_bool_iff in Hlo, Hhi. auto.
Qed.

(** X9.  Whatever argument object passes the validation of
    [searchSpotify], the search request sent to the SDK has the query given,
    verbatim, exactly one item type among [track], [album] and [playlist],
    no market, a limit between 1 and 50 and an offset between 0 and 1000. *)
Theorem searchSpotify_request_in_bounds (raw : RawArgs) (w : World)
    (p : Prog Envelope) :
  callTool searchSpotify raw = Handle p ->
  authorised w ->
  exists (query type : string) (limit offset : Q),
    requests (exec w p) = [Credential; Api (search query [type] None limit offset)]
    /\ field raw "query" = JStr query
    /\ type ∈ ["track"; "album"; "playlist"]
    /\ (1 <= limit)%Q /\ (limit <= 50)%Q
    /\ (0 <= offset)%Q /\ (offset <= 1000)%Q.
Proof.
  unfold callTool. cbn [schema handler searchSpotify]. intros Hp Hw.
  destruct (SearchSpotify.schema raw) as [a|] eqn:Ha; [|discriminate].
  injection Hp as <-.
  destruct (searchSpotify_schema_type raw a Ha) as [Hq Hty].
  destruct (searchSpotify_schema_fields raw a Ha) as [Hl Ho].
  eexists _, _, _, _. split; [by apply searchSpotify_requests|].
  split; [exact Hq|]. split; [exact Hty|].
  destruct (z_bounded_Some _ _ _ _ Hl) as [[_ ->]|(l & _ & -> & Hl1 & Hl2)];
    destruct (z_bounded_Some _ _ _ _ Ho) as [[_ ->]|(o & _ & -> & Ho1 & Ho2)];
    simpl; repeat split; done.
Qed.

Lemma searchSpotify_request_in_bounds_witness :
  exists (query type : string) (limit offset : Q),
    requests (exec calm (SearchSpotify.handler
       {| SearchSpotify.query := "queen"; SearchSpotify.type := "track";
          SearchSpotify.limit := None; SearchSpotify.offset := None |}))
    = [Credential; Api (search query [type] None limit offset)]
    /\ (1 <= limit)%Q /\ (limit <= 50)%Q.
Proof.
  assert (Hcall :
    callTool searchSpotify search_queen
    = Handle (SearchSpotify.handler
                {| SearchSpotify.query := "queen"; SearchSpotify.type := "track";
                   SearchSpotify.limit := None;
                   SearchSpotify.offset := None |})) by reflexivity.
  destruct (searchSpotify_request_in_bounds search_queen calm _ Hcall eq_refl)
    as (query & type & limit & offset & Hreq & _ & _ & Hlo & Hhi & _).
  by exists query, type, limit, offset.
Defined.

(** ** The registry *)

Lemma registry_tools :
  registry
  = [playMusic; playbackAction; searchSpotify; getNowPlaying; getUserPlaylists;
     getPlaylistTracks; getRecentlyPlayed; getFollowedArtists; getUserTopItems;
     addToQueue; addTracksToPlaylist; createPlaylist; removeTracksFromPlaylist].
Proof. reflexivity. Qed.

(** X10.  The thirteen tools are registered under pairwise distinct
    names, so a call by name reaches the tool of that name and is validated
    and handled by it; a name that is not registered reaches no handler. *)
Theorem registry_names (raw : RawArgs) :
  NoDup (name <$> registry)
  /\ length registry = 13%nat
  /\ (forall t : tool, t ∈ registry -> server_call (name t) raw = callTool t raw)
  /\ (forall s : string, s ∉ name <$> registry -> server_call s raw = UnknownTool).
Proof.
  split; [|split; [reflexivity|split]].
  - rewrite registry_tools. cbn [fmap list_fmap name playMusic playbackAction
      searchSpotify getNowPlaying getUserPlaylists getPlaylistTracks
      getRecentlyPlayed getFollowedArtists getUserTopItems addToQueue
      addTracksToPlaylist createPlaylist removeTracksFromPlaylist].
    repeat (apply NoDup_cons; split;
            [rewrite ?elem_of_cons, elem_of_nil; intros H;
             repeat (destruct H as [H|H]; [discriminate H|]); exact H|]).
    apply NoDup_nil_2.
  - intros t Ht. rewrite registry_tools in Ht.
    rewrite !elem_of_cons, elem_of_nil in Ht.
    repeat (destruct Ht as [->|Ht]; [reflexivity|]). destruct Ht.
  - intros s Hs. unfold server_call.
    destruct (list_find _ registry) as [[i t]|] eqn:Hfind; [|reflexivity].
    apply list_find_Some in Hfind as (Hi & Hname & _).
    exfalso. apply Hs. rewrite <- Hname.
    apply list_elem_of_fmap. exists t. split; [reflexivity|].
    by apply list_elem_of_lookup_2 in Hi.
Qed.

Lemma registry_names_witness :
  server_call "addToQueue" ∅ = callTool addToQueue ∅
  /\ server_call "deletePlaylist" ∅ = UnknownTool.
Proof.
  destruct (registry_names ∅) as (_ & _ & Hknown & Hunknown). split.
  - apply (Hknown addToQueue). rewrite registry_tools.
    rewrite !elem_of_cons. do 9 right. left. reflexivity.
  - apply Hunknown. intros H.
    apply list_elem_of_fmap in H as (t & Hn & Ht).
    rewrite registry_tools, !elem_of_cons, elem_of_nil in Ht.
    repeat (destruct Ht as [->|Ht]; [discriminate Hn|]). exact Ht.
Defined.

(** ** Required and optional fields *)

Lemma field_missing (raw : RawArgs) (key : string) :
  raw !! key = None -> field raw key = JUndefined.
Proof. intros H. unfold field. by rewrite H. Qed.

(** X11.  A call that leaves out a required field ([query] or [type] of
    [searchSpotify], [playlistId] of [getPlaylistTracks], [type] or
    [time_range] of [getUserTopItems], [action] of [playbackAction], [name]
    of [createPlaylist], [playlistId] or [trackIds] of the two playlist
    edits) fails validation whatever else it holds; the six other tools
    accept the empty argument object. *)
Theorem required_fields_enforced :
  (forall (t : tool) (key : string) (raw : RawArgs),
      (t, key) ∈ required_fields -> raw !! key = None ->
      callTool t raw = InvalidArguments)
  /\ (forall t : tool, t ∈ argument_free_tools ->
      exists p, callTool t ∅ = Handle p).
Proof.
  split.
  - intros t key raw Hin Hmiss. apply field_missing in Hmiss.
    unfold required_fields in Hin. rewrite !elem_of_cons, elem_of_nil in Hin.
    unfold callTool.
    repeat (destruct Hin as [[= -> ->]|Hin];
            [cbn [schema searchSpotify getPlaylistTracks getUserTopItems
                    playbackAction createPlaylist addTracksToPlaylist
                    removeTracksFromPlaylist];
             unfold SearchSpotify.schema, GetPlaylistTracks.schema,
               GetUserTopItems.schema, PlaybackAction.schema,
               CreatePlaylist.schema, AddTracksToPlaylist.schema,
               RemoveTracksFromPlaylist.schema;
             rewrite Hmiss; by schema_fields|]).
    destruct Hin.
  - intros t Ht. unfold argument_free_tools in Ht.
    rewrite !elem_of_cons, elem_of_nil in Ht.
    repeat (destruct Ht as [->|Ht]; [eexists; reflexivity|]). destruct Ht.
Qed.

Lemma required_fields_enforced_witness :
  callTool createPlaylist {[ "description" := JStr "road trip" ]}
  = InvalidArguments.
Proof.
  apply (proj1 required_fields_enforced createPlaylist "name");
    [|vm_compute; reflexivity].
  unfold required_fields. rewrite !elem_of_cons. do 6 right. left. reflexivity.
Defined.

(** ** What validation lets through *)







(** ** What a search renders *)

Lemma search_format_same_page (type : string) (r r' : SearchResults) :
  same_page type r r' ->
  SearchSpotify.format type r = SearchSpotify.format type r'.
Proof.
  unfold same_page, SearchSpotify.format.
  destruct (String.eqb_spec type "track") as [->|_].
  { cbn [String.eqb Ascii.eqb Bool.eqb andb]. by intros ->. }
  destruct (String.eqb_spec type "album") as [->|_].
  { cbn [String.eqb Ascii.eqb Bool.eqb andb]. by intros ->. }
  destruct (String.eqb_spec type "playlist") as [->|_]; [by intros ->|done].
Qed.

Lemma searchSpotify_outcome (w : World) (a : SearchSpotify.args)
    (r : SearchResults) :
  authorised w ->
  answers w (search (SearchSpotify.query a) [SearchSpotify.type a] None
               (default 20%Q (SearchSpotify.limit a))
               (default 0%Q (SearchSpotify.offset a))) r ->
  outcome (exec w (SearchSpotify.handler a))
  = Fulfilled (text_content
      (let formattedResults := SearchSpotify.format (SearchSpotify.type a) r in
       if (0 <? String.length formattedResults)%nat
       then "# Search results for " +:+ dq +:+ SearchSpotify.query a +:+ dq
              +:+ " (type: " +:+ SearchSpotify.type a +:+ ")" +:+ nl +:+ nl
              +:+ formattedResults
       else "No " +:+ SearchSpotify.type a +:+ " results found for "
              +:+ dq +:+ SearchSpotify.query a +:+ dq)).
Proof.
  intros Hw Hc. unfold SearchSpotify.handler. cbv zeta. by run_known w Hw Hc.
Qed.

(** X14.  A search renders only the page of the type that was asked for:
    in two environments whose replies hold the same page for that type, the
    handler returns the same text, whatever the other pages hold. *)
Theorem searchSpotify_reads_one_page (w w' : World) (a : SearchSpotify.args)
    (r r' : SearchResults) :
  let c := search (SearchSpotify.query a) [SearchSpotify.type a] None
             (default 20%Q (SearchSpotify.limit a))
             (default 0%Q (SearchSpotify.offset a)) in
  authorised w -> answers w c r ->
  authorised w' -> answers w' c r' ->
  same_page (SearchSpotify.type a) r r' ->
  outcome (exec w (SearchSpotify.handler a))
  = outcome (exec w' (SearchSpotify.handler a)).
Proof.
  intros c Hw Hc Hw' Hc' Hsame. subst c.
  rewrite (searchSpotify_outcome w a r Hw Hc).
  rewrite (searchSpotify_outcome w' a r' Hw' Hc').
  cbv zeta. by rewrite (search_format_same_page _ r r' Hsame).
Qed.

Lemma searchSpotify_reads_one_page_witness :
  outcome (exec calm (SearchSpotify.handler
     {| SearchSpotify.query := "queen"; SearchSpotify.type := "track";
        SearchSpotify.limit := None; SearchSpotify.offset := None |}))
  = outcome (exec album_shop (SearchSpotify.handler
     {| SearchSpotify.query := "queen"; SearchSpotify.type := "track";
        SearchSpotify.limit := None; SearchSpotify.offset := None |})).
Proof.
  exact (searchSpotify_reads_one_page calm album_shop
           {| SearchSpotify.query := "queen"; SearchSpotify.type := "track";
              SearchSpotify.limit := None; SearchSpotify.offset := None |}
           _ _ eq_refl eq_refl eq_refl eq_refl eq_refl).
Defined.




(** ** Entries that are no tracks *)



